(** * Rotating hexagon ball: a shallow embedding of [rotating_hexagon_ball.py]

    The program keeps one ball inside a rotating hexagon; the left mouse
    button grabs, drags and throws the ball.

    Modelling choices.
    - Python floats are idealised as real numbers ([R]); rounding is not
      modelled.
    - [pygame.Vector2] objects are mutable and the program shares them
      between fields ([ball.vel = drag.throw_vel]), so the objects that are
      stored in fields live in an explicit store and fields hold locations.
      In-place operators ([+=], [-=], [update]) write to the store, the
      other operators allocate or yield values.
    - Exceptions ([ValueError] of [normalize], [ZeroDivisionError],
      [IndexError]) are results of an error monad.
    - The module constants are the fields of a [Config]; [source] holds the
      values of the program text.
    - Window creation and drawing have no effect on the simulated state and
      are left out. *)

From Stdlib Require Import Reals Lra Lia List ZArith Bool Psatz.
Import ListNotations.
Open Scope R_scope.

(** ** Vectors (values of [pygame.Vector2]) *)

Module Vector2.

Record t : Type := mk { x : R; y : R }.

Definition zero : t := mk 0 0.
Definition add (u v : t) : t := mk (x u + x v) (y u + y v).
Definition sub (u v : t) : t := mk (x u - x v) (y u - y v).
Definition neg (u : t) : t := mk (- x u) (- y u).
(** [v * k] and [k * v] with a scalar [k]. *)
Definition scale (u : t) (k : R) : t := mk (x u * k) (y u * k).
Definition dot (u v : t) : R := x u * x v + y u * y v.
Definition length_squared (u : t) : R := dot u u.
Definition length (u : t) : R := sqrt (length_squared u).

End Vector2.

Abbreviation V2 := Vector2.t.
Abbreviation vec := Vector2.mk.

(** ** Exceptions *)

Inductive exn : Type := ValueError | ZeroDivisionError | IndexError.

Inductive result (A : Type) : Type :=
| Ok (a : A)
| Raise (e : exn).
Arguments Ok {A} a.
Arguments Raise {A} e.

Definition bind {A B : Type} (m : result A) (k : A -> result B) : result B :=
  match m with
  | Ok a => k a
  | Raise e => Raise e
  end.

Notation "'do' a <- m ; k" := (bind m (fun a => k))
  (at level 10, a name, m at level 100, k at level 200).

(** [v / k]: pygame raises [ZeroDivisionError] on a zero divisor. *)
Definition vdiv (u : V2) (k : R) : result V2 :=
  if Req_dec_T k 0 then Raise ZeroDivisionError
  else Ok (vec (Vector2.x u / k) (Vector2.y u / k)).

(** [v.normalize()]: raises [ValueError] on a vector of length zero. *)
Definition normalize (u : V2) : result V2 :=
  let len := Vector2.length u in
  if Req_dec_T len 0 then Raise ValueError
  else Ok (vec (Vector2.x u / len) (Vector2.y u / len)).

(** Python's [max(a, b)]: [b] when [b > a], else [a]. *)
Definition py_max (a b : R) : R := if Rgt_dec b a then b else a.

(** ** The store of vector objects *)

Definition loc := nat.
Definition heap := list V2.

Definition read (h : heap) (l : loc) : V2 := nth l h Vector2.zero.

Fixpoint write (h : heap) (l : loc) (v : V2) : heap :=
  match h, l with
  | [], _ => []
  | _ :: h', O => v :: h'
  | u :: h', S l' => u :: write h' l' v
  end.

(** A new object gets the next free location. *)
Definition alloc (h : heap) (v : V2) : heap * loc := (h ++ [v], length h).

(** ** Configuration: the module constants *)

Record Config : Type := {
  GRAVITY : V2;
  BALL_RADIUS : R;
  BALL_MASS : R;
  RESTITUTION : R;
  FRICTION : R;
  HEX_RADIUS : R;
  HEX_CENTER : V2;
  ANGULAR_SPEED : R
}.

Definition WIDTH : Z := 900.
Definition HEIGHT : Z := 700.

(** [math.tau] and [math.radians]. *)
Definition tau : R := 2 * PI.
Definition radians (deg : R) : R := deg * (PI / 180).

Definition source : Config := {|
  GRAVITY := vec 0 900;
  BALL_RADIUS := 18;
  BALL_MASS := 1;
  RESTITUTION := 85 / 100;
  FRICTION := 2 / 10;
  HEX_RADIUS := 240;
  HEX_CENTER := vec (IZR (WIDTH / 2)) (IZR (HEIGHT / 2));
  ANGULAR_SPEED := radians 25
|}.

(** ** Ball and drag state *)

Record Ball : Type := { pos : loc; vel : loc }.

Record DragState : Type := {
  active : bool;
  grab_offset : loc;
  last_mouse : loc;
  throw_vel : loc
}.

Section Simulation.

Variable cfg : Config.

(** [Ball.apply_force]: [self.vel += (force / BALL_MASS) * dt]. *)
Definition apply_force (b : Ball) (force : V2) (dt : R) (h : heap) : result heap :=
  do a <- vdiv force (BALL_MASS cfg);
  Ok (write h (vel b) (Vector2.add (read h (vel b)) (Vector2.scale a dt))).

(** [Ball.integrate]: [self.pos += self.vel * dt]. *)
Definition integrate (b : Ball) (dt : R) (h : heap) : heap :=
  write h (pos b) (Vector2.add (read h (pos b)) (Vector2.scale (read h (vel b)) dt)).

(** [DragState.reset]. *)
Definition reset (d : DragState) (h : heap) : DragState * heap :=
  let d1 := {| active := false; grab_offset := grab_offset d;
               last_mouse := last_mouse d; throw_vel := throw_vel d |} in
  let h1 := write h (grab_offset d) (vec 0 0) in
  let h2 := write h1 (throw_vel d) (vec 0 0) in
  (d1, h2).

(** [hexagon_vertices]. *)
Definition hexagon_vertex (center : V2) (radius angle : R) (i : nat) : V2 :=
  let theta := angle + INR i * tau / 6 in
  vec (Vector2.x center + radius * cos theta)
      (Vector2.y center + radius * sin theta).

Definition hexagon_vertices (center : V2) (radius angle : R) : list V2 :=
  map (hexagon_vertex center radius angle) (seq 0 6).

(** Lines 73-82 of [resolve_collision]: the unit normal of the edge from
    [a] to [b], turned towards [HEX_CENTER]; [None] when the edge is
    skipped by the [continue]. *)
Definition edge_normal (a b : V2) : result (option V2) :=
  let edge := Vector2.sub b a in
  let normal := vec (- Vector2.y edge) (Vector2.x edge) in
  if Req_dec_T (Vector2.length_squared normal) 0 then Ok None
  else
    do normal <- normalize normal;
    let to_center := Vector2.sub (HEX_CENTER cfg) (Vector2.scale (Vector2.add a b) (5 / 10)) in
    if Rlt_dec (Vector2.dot normal to_center) 0
    then Ok (Some (Vector2.neg normal))
    else Ok (Some normal).

(** Line 93-94: the velocity of the wall at [wall_point], which turns
    about [HEX_CENTER]. *)
Definition wall_velocity (wall_point : V2) : V2 :=
  let radial := Vector2.sub wall_point (HEX_CENTER cfg) in
  vec (- ANGULAR_SPEED cfg * Vector2.y radial) (ANGULAR_SPEED cfg * Vector2.x radial).

(** Lines 85-106: the response to one edge with inward normal [normal]
    starting at [a]. *)
Definition respond (b : Ball) (a normal : V2) (h : heap) : heap :=
  let dist := Vector2.dot (Vector2.sub (read h (pos b)) a) normal in
  let penetration := BALL_RADIUS cfg - dist in
  if Rgt_dec penetration 0 then
    let h1 := write h (pos b) (Vector2.add (read h (pos b)) (Vector2.scale normal penetration)) in
    let wall_point := read h1 (pos b) in
    let wall_vel := wall_velocity wall_point in
    let rel_vel := Vector2.sub (read h1 (vel b)) wall_vel in
    let vn := Vector2.dot rel_vel normal in
    if Rlt_dec vn 0 then
      let h2 := write h1 (vel b)
                  (Vector2.sub (read h1 (vel b))
                     (Vector2.scale normal ((1 + RESTITUTION cfg) * vn))) in
      let tangent := vec (- Vector2.y normal) (Vector2.x normal) in
      let vt := Vector2.dot rel_vel tangent in
      let friction_impulse := - vt * FRICTION cfg in
      write h2 (vel b) (Vector2.add (read h2 (vel b)) (Vector2.scale tangent friction_impulse))
    else h1
  else h.

(** [vertices[i]] *)
Definition index (vertices : list V2) (i : nat) : result V2 :=
  match nth_error vertices i with
  | Some v => Ok v
  | None => Raise IndexError
  end.

(** One iteration of the loop of [resolve_collision]. *)
Definition resolve_edge (b : Ball) (vertices : list V2) (i : nat) (h : heap) : result heap :=
  do a <- index vertices i;
  do b' <- index vertices ((i + 1) mod 6);
  do n <- edge_normal a b';
  match n with
  | None => Ok h
  | Some normal => Ok (respond b a normal h)
  end.

Fixpoint for_each (body : nat -> heap -> result heap) (range : list nat) (h : heap)
  : result heap :=
  match range with
  | [] => Ok h
  | i :: rest => do h' <- body i h; for_each body rest h'
  end.

(** [resolve_collision]; [angle] and [dt] are not used by the body. *)
Definition resolve_collision (b : Ball) (vertices : list V2) (angle dt : R) (h : heap)
  : result heap :=
  for_each (resolve_edge b vertices) (seq 0 6) h.

(** *** The main loop *)

Record World : Type := {
  mem : heap;
  ball : Ball;
  drag : DragState;
  angle : R;
  running : bool
}.

(** The events [main] tells apart; [pos] of a button event is a pair of
    integers. *)
Inductive Event : Type :=
| QUIT
| KEYDOWN (key : Z)
| MOUSEBUTTONDOWN (button : Z) (position : Z * Z)
| MOUSEBUTTONUP (button : Z)
| OTHER.

Definition K_ESCAPE : Z := 27.

(** [pygame.Vector2(event.pos)] *)
Definition Vector2_of (p : Z * Z) : V2 := vec (IZR (fst p)) (IZR (snd p)).

(** The body of [for event in pygame.event.get()]. *)
Definition handle_event (w : World) (e : Event) : World :=
  match e with
  | QUIT =>
      {| mem := mem w; ball := ball w; drag := drag w; angle := angle w; running := false |}
  | KEYDOWN key =>
      if Z.eqb key K_ESCAPE
      then {| mem := mem w; ball := ball w; drag := drag w; angle := angle w;
              running := false |}
      else w
  | MOUSEBUTTONDOWN button position =>
      if Z.eqb button 1 then
        let (h1, mouse) := alloc (mem w) (Vector2_of position) in
        if Rle_dec (Vector2.length (Vector2.sub (read h1 mouse) (read h1 (pos (ball w)))))
                   (BALL_RADIUS cfg + 4)
        then
          let (h2, off) := alloc h1 (Vector2.sub (read h1 (pos (ball w))) (read h1 mouse)) in
          let h3 := write h2 (throw_vel (drag w)) (vec 0 0) in
          {| mem := h3; ball := ball w;
             drag := {| active := true; grab_offset := off; last_mouse := mouse;
                        throw_vel := throw_vel (drag w) |};
             angle := angle w; running := running w |}
        else
          {| mem := h1; ball := ball w; drag := drag w; angle := angle w;
             running := running w |}
      else w
  | MOUSEBUTTONUP button =>
      if Z.eqb button 1 then
        let b1 := if active (drag w)
                  then {| pos := pos (ball w); vel := throw_vel (drag w) |}
                  else ball w in
        let (d1, h1) := reset (drag w) (mem w) in
        {| mem := h1; ball := b1; drag := d1; angle := angle w; running := running w |}
      else w
  | OTHER => w
  end.

(** Lines 139-146: the ball follows the mouse while held, and falls
    otherwise.  [mouse_pos] is the value of [pygame.mouse.get_pos()]. *)
Definition move_ball (dt : R) (mouse_pos : Z * Z) (w : World) : result World :=
  if active (drag w) then
    let (h1, mouse) := alloc (mem w) (Vector2_of mouse_pos) in
    let (h2, p) := alloc h1 (Vector2.add (read h1 mouse) (read h1 (grab_offset (drag w)))) in
    do tv <- vdiv (Vector2.sub (read h2 mouse) (read h2 (last_mouse (drag w))))
                  (py_max dt (1 / 1000000));
    let (h3, t) := alloc h2 tv in
    Ok {| mem := h3;
          ball := {| pos := p; vel := vel (ball w) |};
          drag := {| active := true; grab_offset := grab_offset (drag w);
                     last_mouse := mouse; throw_vel := t |};
          angle := angle w; running := running w |}
  else
    do h1 <- apply_force (ball w) (GRAVITY cfg) dt (mem w);
    Ok {| mem := integrate (ball w) dt h1; ball := ball w; drag := drag w;
          angle := angle w; running := running w |}.

(** Lines 148-150: the hexagon turns and the ball is kept inside. *)
Definition turn_and_collide (dt : R) (w : World) : result World :=
  let angle' := angle w + ANGULAR_SPEED cfg * dt in
  let vertices := hexagon_vertices (HEX_CENTER cfg) (HEX_RADIUS cfg) angle' in
  do h <- resolve_collision (ball w) vertices angle' dt (mem w);
  Ok {| mem := h; ball := ball w; drag := drag w; angle := angle'; running := running w |}.

(** One iteration of [while running]; [dt] is [clock.tick(FPS) / 1000.0]. *)
Definition loop_body (dt : R) (events : list Event) (mouse_pos : Z * Z) (w : World)
  : result World :=
  let w1 := fold_left handle_event events w in
  do w2 <- move_ball dt mouse_pos w1;
  turn_and_collide dt w2.

(** What the rest of the program reads of the ball. *)
Definition ball_position (w : World) : V2 := read (mem w) (pos (ball w)).
Definition ball_velocity (w : World) : V2 := read (mem w) (vel (ball w)).

End Simulation.

(** The state [main] starts from.  The three default vectors of [DragState]
    are made when the class is defined, the ball's two when [main] starts. *)
Definition initial_world : World := {|
  mem := [vec 0 0; vec 0 0; vec 0 0;
          vec (IZR WIDTH * (5 / 10)) (IZR HEIGHT * (5 / 10) - 120); vec 180 0];
  ball := {| pos := 3%nat; vel := 4%nat |};
  drag := {| active := false; grab_offset := 0%nat; last_mouse := 1%nat; throw_vel := 2%nat |};
  angle := 0;
  running := true
|}.

(** ** Vocabulary of the statements *)

(** The signed distance of the point [p] from edge [i] of [vertices] along
    the normal that [resolve_collision] uses for that edge; [None] when the
    edge is skipped or missing. *)
Definition signed_distance (cfg : Config) (vertices : list V2) (i : nat) (p : V2)
  : option R :=
  match index vertices i, index vertices ((i + 1) mod 6) with
  | Ok a, Ok b =>
      match edge_normal cfg a b with
      | Ok (Some normal) => Some (Vector2.dot (Vector2.sub p a) normal)
      | _ => None
      end
  | _, _ => None
  end.

(** The vector [v] turned by the angle [phi]. *)
Definition rotate (phi : R) (v : V2) : V2 :=
  vec (Vector2.x v * cos phi - Vector2.y v * sin phi)
      (Vector2.x v * sin phi + Vector2.y v * cos phi).

(** The inward unit normal of edge [i] of the hexagon turned by [angle]. *)
Definition hex_normal (angle : R) (i : nat) : V2 :=
  let theta := angle + INR i * tau / 6 + PI / 6 in
  vec (- cos theta) (- sin theta).

(** The distance of the edges of the hexagon from its centre. *)
Definition inradius (cfg : Config) : R := HEX_RADIUS cfg * sqrt 3 / 2.

(** What the response to edge [i] does to a ball centred at [p]. *)
Definition push (cfg : Config) (a normal p : V2) : V2 :=
  let penetration := BALL_RADIUS cfg - Vector2.dot (Vector2.sub p a) normal in
  if Rgt_dec penetration 0 then Vector2.add p (Vector2.scale normal penetration) else p.

(** Coordinates for the analysis of a pass over the six edges: a vector [q]
    from the centre is given by [a = q . n0] and [b = q . n1], where [n0] and
    [n1] are the normals of edges 0 and 1; [edge_coord i a b] is [q . ni]. *)
Definition edge_coord (i : nat) (a b : R) : R :=
  match i with
  | 0%nat => a
  | 1%nat => b
  | 2%nat => b - a
  | 3%nat => - a
  | 4%nat => - b
  | _ => a - b
  end.

(** The response to edge [i] in these coordinates; [m] is the inradius less
    the ball radius. *)
Definition coord_push (m : R) (i : nat) (ab : R * R) : R * R :=
  let penetration := - m - edge_coord i (fst ab) (snd ab) in
  if Rgt_dec penetration 0
  then (fst ab + penetration * edge_coord i 1 (1 / 2),
        snd ab + penetration * edge_coord i (1 / 2) 1)
  else ab.

(** The room between the ball and an edge when the ball sits at the centre. *)
Definition slack (cfg : Config) : R := inradius cfg - BALL_RADIUS cfg.

(** The coordinates of the point [p] for the hexagon turned by [angle]. *)
Definition coords (cfg : Config) (angle : R) (p : V2) : R * R :=
  (Vector2.dot (Vector2.sub p (HEX_CENTER cfg)) (hex_normal angle 0),
   Vector2.dot (Vector2.sub p (HEX_CENTER cfg)) (hex_normal angle 1)).

(** The response to edge [i] of the program's hexagon, on a point and on the
    store. *)
Definition push_edge (cfg : Config) (angle : R) (p : V2) (i : nat) : V2 :=
  push cfg (hexagon_vertex (HEX_CENTER cfg) (HEX_RADIUS cfg) angle i) (hex_normal angle i) p.

Definition respond_edge (cfg : Config) (angle : R) (b : Ball) (h : heap) (i : nat) : heap :=
  respond cfg b (hexagon_vertex (HEX_CENTER cfg) (HEX_RADIUS cfg) angle i)
    (hex_normal angle i) h.

(** The locations of the ball are two different objects of the store. *)
Definition ball_ok (b : Ball) (h : heap) : Prop :=
  (pos b < length h)%nat /\ (vel b < length h)%nat /\ pos b <> vel b.

(** The fields of a world point into the store, and the ball's position is
    an object of its own, as is the grab offset. *)
Definition world_ok (w : World) : Prop :=
  ball_ok (ball w) (mem w) /\
  (grab_offset (drag w) < length (mem w))%nat /\
  (last_mouse (drag w) < length (mem w))%nat /\
  (throw_vel (drag w) < length (mem w))%nat /\
  pos (ball w) <> grab_offset (drag w) /\
  pos (ball w) <> throw_vel (drag w) /\
  vel (ball w) <> grab_offset (drag w) /\
  throw_vel (drag w) <> grab_offset (drag w).

(** The program with a container that does not turn. *)
Definition stationary : Config := {|
  GRAVITY := GRAVITY source;
  BALL_RADIUS := BALL_RADIUS source;
  BALL_MASS := BALL_MASS source;
  RESTITUTION := RESTITUTION source;
  FRICTION := FRICTION source;
  HEX_RADIUS := HEX_RADIUS source;
  HEX_CENTER := HEX_CENTER source;
  ANGULAR_SPEED := 0
|}.

(** The ball grabbed at its centre and held where it started, when the
    hexagon has turned for 149 frames of 16 ms: locations 5 to 7 hold the
    last mouse position, the grab offset and the throw velocity. *)
Definition dragging_world : World := {|
  mem := [vec 0 0; vec 0 0; vec 0 0; vec 450 230; vec 180 0;
          vec 450 230; vec 0 0; vec 0 0];
  ball := {| pos := 3%nat; vel := 4%nat |};
  drag := {| active := true; grab_offset := 6%nat; last_mouse := 5%nat;
             throw_vel := 7%nat |};
  angle := 149 * (radians 25 * (16 / 1000));
  running := true
|}.

(** Edge [j] of [vertices] does not respond to a ball centred at [q]: the
    edge is skipped, or [q] is a ball radius or more inside it. *)
Definition clear_of (cfg : Config) (vertices : list V2) (j : nat) (q : V2) : Prop :=
  forall d, signed_distance cfg vertices j q = Some d -> BALL_RADIUS cfg <= d.

(** The response to one edge on the values of the ball's position and
    velocity, when the two are different objects. *)
Definition respond_values (cfg : Config) (a normal : V2) (pv : V2 * V2) : V2 * V2 :=
  let dist := Vector2.dot (Vector2.sub (fst pv) a) normal in
  let penetration := BALL_RADIUS cfg - dist in
  if Rgt_dec penetration 0 then
    let p1 := Vector2.add (fst pv) (Vector2.scale normal penetration) in
    let rel_vel := Vector2.sub (snd pv) (wall_velocity cfg p1) in
    let vn := Vector2.dot rel_vel normal in
    if Rlt_dec vn 0 then
      let v1 := Vector2.sub (snd pv) (Vector2.scale normal ((1 + RESTITUTION cfg) * vn)) in
      let tangent := vec (- Vector2.y normal) (Vector2.x normal) in
      let vt := Vector2.dot rel_vel tangent in
      (p1, Vector2.add v1 (Vector2.scale tangent (- vt * FRICTION cfg)))
    else (p1, snd pv)
  else pv.

(** The hexagon of the program when the container does not turn. *)
Definition still_hexagon : list V2 :=
  hexagon_vertices (HEX_CENTER stationary) (HEX_RADIUS stationary) 0.

(** A store with a ball only: location 0 is its position, location 1 its
    velocity. *)
Definition lone_ball : Ball := {| pos := 0%nat; vel := 1%nat |}.

(** The ball in the corner between edges 1 and 2 of [still_hexagon], moving
    into edge 1 at 100 per second and along it at 200 per second. *)
Definition corner_store : heap := [vec 334 545; vec (-200) 100].

(** The ball at the middle of edge 1 of [still_hexagon], moving into it at
    100 per second. *)
Definition edge_store : heap := [vec 450 545; vec 5 100].


(** * Lemmas *)

(** ** Vectors *)

Lemma vec_eq (u v : V2) :
  Vector2.x u = Vector2.x v -> Vector2.y u = Vector2.y v -> u = v.
Proof. destruct u, v; simpl; intros -> ->; reflexivity. Qed.

Ltac vec_crush :=
  apply vec_eq; unfold Vector2.add, Vector2.sub, Vector2.scale, Vector2.neg,
    Vector2.dot, Vector2.zero; simpl; try field; try lra.

Lemma sum_squares_zero (u v : R) : u * u + v * v = 0 -> u = 0 /\ v = 0.
Proof.
  intros H.
  assert (Hu : u * u = 0) by nra. assert (Hv : v * v = 0) by nra.
  apply Rmult_integral in Hu, Hv. tauto.
Qed.

Lemma add_scale_0 (u v : V2) : Vector2.add u (Vector2.scale v 0) = u.
Proof. vec_crush. Qed.

Lemma length_squared_nonneg (u : V2) : 0 <= Vector2.length_squared u.
Proof. unfold Vector2.length_squared, Vector2.dot. nra. Qed.

Lemma length_squared_zero (u : V2) :
  Vector2.length_squared u = 0 -> u = vec 0 0.
Proof.
  unfold Vector2.length_squared, Vector2.dot. intros H.
  apply sum_squares_zero in H. apply vec_eq; simpl; tauto.
Qed.

Lemma length_pos (u : V2) : Vector2.length_squared u <> 0 -> 0 < Vector2.length u.
Proof.
  intros H. unfold Vector2.length. apply sqrt_lt_R0.
  pose proof (length_squared_nonneg u). lra.
Qed.

Lemma length_sqr (u : V2) :
  Vector2.length u * Vector2.length u = Vector2.length_squared u.
Proof. unfold Vector2.length. apply sqrt_sqrt, length_squared_nonneg. Qed.

(** ** The store *)

Lemma write_length (h : heap) (l : loc) (v : V2) : length (write h l v) = length h.
Proof.
  revert l; induction h as [|u h IH]; intros [|l]; simpl; auto.
Qed.

Lemma read_write_same (h : heap) (l : loc) (v : V2) :
  (l < length h)%nat -> read (write h l v) l = v.
Proof.
  unfold read. revert l; induction h as [|u h IH]; intros [|l]; simpl; intros Hl;
    try lia; auto.
  apply IH; lia.
Qed.

Lemma read_write_other (h : heap) (l l' : loc) (v : V2) :
  l <> l' -> read (write h l v) l' = read h l'.
Proof.
  unfold read. revert l l'; induction h as [|u h IH]; intros [|l] [|l']; simpl;
    intros Hne; try congruence; auto.
Qed.

Lemma write_read (h : heap) (l : loc) : write h l (read h l) = h.
Proof.
  unfold read. revert l; induction h as [|u h IH]; intros [|l]; simpl; auto.
  f_equal; apply IH.
Qed.

Lemma read_app_old (h t : heap) (l : loc) :
  (l < length h)%nat -> read (h ++ t) l = read h l.
Proof. intros Hl. unfold read. apply app_nth1; assumption. Qed.

Lemma read_app_new (h : heap) (v : V2) : read (h ++ [v]) (length h) = v.
Proof. unfold read. rewrite app_nth2, Nat.sub_diag; [reflexivity | lia]. Qed.

(** ** Normals *)

Lemma normalize_ok (u : V2) :
  Vector2.length_squared u <> 0 ->
  exists n, normalize u = Ok n /\ Vector2.dot n n = 1 /\
            n = vec (Vector2.x u / Vector2.length u) (Vector2.y u / Vector2.length u).
Proof.
  intros H. pose proof (length_pos u H) as Hpos. pose proof (length_sqr u) as Hsq.
  unfold normalize. destruct (Req_dec_T (Vector2.length u) 0) as [E|_]; [lra|].
  eexists; split; [reflexivity|]. split; [|reflexivity].
  unfold Vector2.dot; simpl.
  unfold Vector2.length_squared, Vector2.dot in Hsq.
  set (L := Vector2.length u) in *.
  replace (Vector2.x u / L * (Vector2.x u / L) + Vector2.y u / L * (Vector2.y u / L))
    with ((Vector2.x u * Vector2.x u + Vector2.y u * Vector2.y u) / (L * L))
    by (field; lra).
  rewrite <- Hsq. field. nra.
Qed.

Lemma perp_nonzero (a b : V2) :
  a <> b ->
  Vector2.length_squared
    (vec (- Vector2.y (Vector2.sub b a)) (Vector2.x (Vector2.sub b a))) <> 0.
Proof.
  intros Hab H. apply Hab.
  unfold Vector2.length_squared, Vector2.dot in H; simpl in H.
  destruct a as [xa ya], b as [xb yb]; simpl in *.
  apply sum_squares_zero in H. f_equal; lra.
Qed.

(** [edge_normal] raises nothing: the zero test comes before [normalize]. *)
Lemma edge_normal_total (cfg : Config) (a b : V2) :
  exists o, edge_normal cfg a b = Ok o.
Proof.
  unfold edge_normal.
  destruct (Req_dec_T _ 0) as [E|NE]; [eexists; reflexivity|].
  destruct (normalize_ok _ NE) as (n & Hn & _). rewrite Hn. simpl.
  destruct (Rlt_dec _ 0); eexists; reflexivity.
Qed.

Lemma edge_normal_spec (cfg : Config) (a b n : V2) :
  edge_normal cfg a b = Ok (Some n) ->
  Vector2.dot n n = 1 /\
  0 <= Vector2.dot n
         (Vector2.sub (HEX_CENTER cfg) (Vector2.scale (Vector2.add a b) (5 / 10))).
Proof.
  unfold edge_normal.
  destruct (Req_dec_T _ 0) as [E|NE]; [discriminate|].
  destruct (normalize_ok _ NE) as (m & Hm & Hunit & _). rewrite Hm. simpl.
  destruct (Rlt_dec _ 0) as [Hlt|Hge]; intros Heq; injection Heq as <-.
  - split.
    + unfold Vector2.dot, Vector2.neg in *; simpl. lra.
    + unfold Vector2.dot, Vector2.neg in *; simpl in *. lra.
  - split; [assumption | lra].
Qed.

Lemma edge_normal_some (cfg : Config) (a b : V2) :
  a <> b -> exists n, edge_normal cfg a b = Ok (Some n).
Proof.
  intros Hab. unfold edge_normal.
  destruct (Req_dec_T _ 0) as [E|NE]; [exfalso; exact (perp_nonzero a b Hab E)|].
  destruct (normalize_ok _ NE) as (m & Hm & _). rewrite Hm. simpl.
  destruct (Rlt_dec _ 0); eexists; reflexivity.
Qed.

(** ** The hexagon *)

Lemma sqrt3_sqr : sqrt 3 * sqrt 3 = 3.
Proof. apply sqrt_sqrt; lra. Qed.

Lemma sqrt3_pos : 0 < sqrt 3.
Proof. apply sqrt_lt_R0; lra. Qed.

Lemma cos_sin_unit (t : R) : cos t * cos t + sin t * sin t = 1.
Proof. pose proof (sin2_cos2 t) as H. unfold Rsqr in H. lra. Qed.

Lemma cos_add_PI3 (t : R) : cos (t + PI / 3) = cos t / 2 - sqrt 3 / 2 * sin t.
Proof. rewrite cos_plus, cos_PI3, sin_PI3. lra. Qed.

Lemma sin_add_PI3 (t : R) : sin (t + PI / 3) = sin t / 2 + sqrt 3 / 2 * cos t.
Proof. rewrite sin_plus, cos_PI3, sin_PI3. lra. Qed.

Lemma cos_add_PI6 (t : R) : cos (t + PI / 6) = sqrt 3 / 2 * cos t - sin t / 2.
Proof. rewrite cos_plus, cos_PI6, sin_PI6. lra. Qed.

Lemma sin_add_PI6 (t : R) : sin (t + PI / 6) = sqrt 3 / 2 * sin t + cos t / 2.
Proof. rewrite sin_plus, cos_PI6, sin_PI6. lra. Qed.

Lemma theta_succ (angle : R) (i : nat) :
  angle + INR (S i) * tau / 6 = angle + INR i * tau / 6 + PI / 3.
Proof. rewrite S_INR. unfold tau. lra. Qed.

Lemma theta_six (angle : R) : angle + INR 6 * tau / 6 = angle + 2 * PI.
Proof. unfold tau. simpl. lra. Qed.

Lemma index_hexagon (c : V2) (r angle : R) (i : nat) :
  (i < 6)%nat -> index (hexagon_vertices c r angle) i = Ok (hexagon_vertex c r angle i).
Proof.
  intros Hi. unfold index, hexagon_vertices.
  do 6 (destruct i as [|i]; [reflexivity|]). lia.
Qed.

Lemma hexagon_vertex_succ (c : V2) (r angle : R) (i : nat) :
  Vector2.sub (hexagon_vertex c r angle (S i)) c
  = rotate (PI / 3) (Vector2.sub (hexagon_vertex c r angle i) c).
Proof.
  unfold hexagon_vertex. cbv zeta.
  rewrite theta_succ, cos_add_PI3, sin_add_PI3.
  unfold rotate, Vector2.sub. cbn [Vector2.x Vector2.y].
  rewrite cos_PI3, sin_PI3.
  f_equal; lra.
Qed.

Lemma hexagon_vertex_wrap (c : V2) (r angle : R) :
  hexagon_vertex c r angle 6 = hexagon_vertex c r angle 0.
Proof.
  unfold hexagon_vertex. cbv zeta. rewrite theta_six.
  rewrite cos_plus, sin_plus, cos_2PI, sin_2PI.
  replace (angle + INR 0 * tau / 6) with angle by (simpl; lra).
  f_equal; lra.
Qed.

Lemma hexagon_vertex_next (c : V2) (r angle : R) (i : nat) :
  (i < 6)%nat ->
  hexagon_vertex c r angle ((i + 1) mod 6) = hexagon_vertex c r angle (S i).
Proof.
  intros Hi. destruct (Nat.eq_dec i 5) as [->|Hne].
  - change ((5 + 1) mod 6)%nat with 0%nat. symmetry. apply hexagon_vertex_wrap.
  - rewrite Nat.mod_small by lia. f_equal. lia.
Qed.

Lemma hex_normal_unit (angle : R) (i : nat) :
  Vector2.dot (hex_normal angle i) (hex_normal angle i) = 1.
Proof.
  unfold hex_normal, Vector2.dot. cbv zeta. simpl.
  pose proof (cos_sin_unit (angle + INR i * tau / 6 + PI / 6)). lra.
Qed.

(** [normalize] undoes a positive scaling of a unit vector. *)
Lemma normalize_scaled (r nx ny : R) :
  0 < r -> nx * nx + ny * ny = 1 ->
  normalize (vec (r * nx) (r * ny)) = Ok (vec nx ny).
Proof.
  intros Hr Hunit. unfold normalize, Vector2.length, Vector2.length_squared, Vector2.dot.
  cbv zeta. cbn [Vector2.x Vector2.y].
  replace (r * nx * (r * nx) + r * ny * (r * ny)) with (r * r)
    by (transitivity (r * r * (nx * nx + ny * ny)); [rewrite Hunit; ring | ring]).
  rewrite sqrt_square by lra.
  destruct (Req_dec_T r 0) as [E|_]; [lra|].
  f_equal. f_equal; field; lra.
Qed.

(** The normal that [resolve_collision] computes for edge [i] of the hexagon
    around [HEX_CENTER] is [hex_normal]: it is not turned over. *)
Lemma edge_normal_hexagon (cfg : Config) (r angle : R) (i : nat) :
  0 < r ->
  edge_normal cfg (hexagon_vertex (HEX_CENTER cfg) r angle i)
                  (hexagon_vertex (HEX_CENTER cfg) r angle (S i))
  = Ok (Some (hex_normal angle i)).
Proof.
  intros Hr.
  set (t := angle + INR i * tau / 6).
  pose proof (cos_sin_unit t) as Hcs.
  pose proof sqrt3_sqr as Hk. pose proof sqrt3_pos as Hk0.
  assert (Hn : hex_normal angle i
               = vec (sin t / 2 - sqrt 3 / 2 * cos t) (- cos t / 2 - sqrt 3 / 2 * sin t)).
  { unfold hex_normal. cbv zeta. fold t. rewrite cos_add_PI6, sin_add_PI6. f_equal; lra. }
  assert (Hu : (sin t / 2 - sqrt 3 / 2 * cos t) * (sin t / 2 - sqrt 3 / 2 * cos t)
               + (- cos t / 2 - sqrt 3 / 2 * sin t) * (- cos t / 2 - sqrt 3 / 2 * sin t) = 1)
    by nra.
  rewrite Hn.
  unfold edge_normal. cbv zeta.
  assert (Hperp :
    vec (- Vector2.y (Vector2.sub (hexagon_vertex (HEX_CENTER cfg) r angle (S i))
                                  (hexagon_vertex (HEX_CENTER cfg) r angle i)))
        (Vector2.x (Vector2.sub (hexagon_vertex (HEX_CENTER cfg) r angle (S i))
                                (hexagon_vertex (HEX_CENTER cfg) r angle i)))
    = vec (r * (sin t / 2 - sqrt 3 / 2 * cos t)) (r * (- cos t / 2 - sqrt 3 / 2 * sin t))).
  { unfold hexagon_vertex. cbv zeta.
    rewrite theta_succ. fold t. rewrite cos_add_PI3, sin_add_PI3.
    unfold Vector2.sub. cbn [Vector2.x Vector2.y]. f_equal; lra. }
  rewrite Hperp.
  destruct (Req_dec_T _ 0) as [E|_].
  { exfalso. unfold Vector2.length_squared, Vector2.dot in E. simpl in E.
    assert (r * r = 0) by nra. nra. }
  rewrite (normalize_scaled _ _ _ Hr Hu). simpl bind.
  destruct (Rlt_dec _ 0) as [Hlt|_]; [exfalso | reflexivity].
  revert Hlt.
  unfold hexagon_vertex. cbv zeta.
  rewrite theta_succ. fold t. rewrite cos_add_PI3, sin_add_PI3.
  unfold Vector2.dot, Vector2.sub, Vector2.add, Vector2.scale.
  cbn [Vector2.x Vector2.y].
  intros Hlt.
  assert (0 <= r * (sqrt 3 / 2)) by nra.
  nra.
Qed.

Lemma hex_normal_succ (angle : R) (i : nat) :
  hex_normal angle (S i) = rotate (PI / 3) (hex_normal angle i).
Proof.
  unfold hex_normal. cbv zeta.
  replace (angle + INR (S i) * tau / 6 + PI / 6)
    with (angle + INR i * tau / 6 + PI / 6 + PI / 3)
    by (rewrite S_INR; unfold tau; lra).
  rewrite cos_add_PI3, sin_add_PI3.
  unfold rotate. cbn [Vector2.x Vector2.y]. rewrite cos_PI3, sin_PI3.
  f_equal; lra.
Qed.

Lemma rotate_PI3 (v : V2) :
  rotate (PI / 3) v
  = vec (Vector2.x v / 2 - sqrt 3 / 2 * Vector2.y v)
        (Vector2.y v / 2 + sqrt 3 / 2 * Vector2.x v).
Proof. unfold rotate. rewrite cos_PI3, sin_PI3. f_equal; lra. Qed.

(** The six normals in terms of the first two. *)
Lemma hex_normal_2 (angle : R) :
  hex_normal angle 2 = Vector2.sub (hex_normal angle 1) (hex_normal angle 0).
Proof.
  rewrite !hex_normal_succ, !rotate_PI3.
  destruct (hex_normal angle 0) as [p q]. unfold Vector2.sub. cbn [Vector2.x Vector2.y].
  f_equal; field [sqrt3_sqr].
Qed.

Lemma hex_normal_3 (angle : R) :
  hex_normal angle 3 = Vector2.neg (hex_normal angle 0).
Proof.
  rewrite !hex_normal_succ, !rotate_PI3.
  destruct (hex_normal angle 0) as [p q]. unfold Vector2.neg. cbn [Vector2.x Vector2.y].
  f_equal; field [sqrt3_sqr].
Qed.

Lemma hex_normal_4 (angle : R) :
  hex_normal angle 4 = Vector2.neg (hex_normal angle 1).
Proof.
  rewrite (hex_normal_succ angle 3), hex_normal_3, (hex_normal_succ angle 0), !rotate_PI3.
  destruct (hex_normal angle 0) as [p q]. unfold Vector2.neg. cbn [Vector2.x Vector2.y].
  f_equal; field.
Qed.

Lemma hex_normal_5 (angle : R) :
  hex_normal angle 5 = Vector2.sub (hex_normal angle 0) (hex_normal angle 1).
Proof.
  rewrite (hex_normal_succ angle 4), hex_normal_4, (hex_normal_succ angle 0), !rotate_PI3.
  destruct (hex_normal angle 0) as [p q].
  unfold Vector2.neg, Vector2.sub. cbn [Vector2.x Vector2.y].
  f_equal; field [sqrt3_sqr].
Qed.

Lemma hex_normal_01 (angle : R) :
  Vector2.dot (hex_normal angle 0) (hex_normal angle 1) = 1 / 2.
Proof.
  pose proof (hex_normal_unit angle 0) as Hu. revert Hu.
  rewrite hex_normal_succ, rotate_PI3.
  destruct (hex_normal angle 0) as [p q]. unfold Vector2.dot. cbn [Vector2.x Vector2.y].
  intros Hu. nra.
Qed.

(** The distance of a point from edge [i], seen from the centre. *)
Lemma distance_from_center (c p : V2) (r angle : R) (i : nat) :
  Vector2.dot (Vector2.sub p (hexagon_vertex c r angle i)) (hex_normal angle i)
  = Vector2.dot (Vector2.sub p c) (hex_normal angle i) + r * sqrt 3 / 2.
Proof.
  unfold hexagon_vertex, hex_normal. cbv zeta.
  set (t := angle + INR i * tau / 6).
  rewrite cos_add_PI6, sin_add_PI6.
  unfold Vector2.dot, Vector2.sub. cbn [Vector2.x Vector2.y].
  assert (Hcs : cos t * cos t = 1 - sin t * sin t)
    by (pose proof (cos_sin_unit t); lra).
  field [Hcs].
Qed.

(** ** The response to one edge *)

Lemma respond_length (cfg : Config) (b : Ball) (a n : V2) (h : heap) :
  length (respond cfg b a n h) = length h.
Proof.
  unfold respond. cbv zeta.
  destruct (Rgt_dec _ 0); [|reflexivity].
  destruct (Rlt_dec _ 0); rewrite ?write_length; reflexivity.
Qed.

Lemma respond_pos (cfg : Config) (b : Ball) (a n : V2) (h : heap) :
  ball_ok b h ->
  read (respond cfg b a n h) (pos b) = push cfg a n (read h (pos b)).
Proof.
  intros (Hp & Hv & Hne). unfold respond, push. cbv zeta.
  destruct (Rgt_dec _ 0); [|reflexivity].
  destruct (Rlt_dec _ 0).
  - rewrite !read_write_other by congruence. apply read_write_same; assumption.
  - apply read_write_same; assumption.
Qed.

Lemma respond_frame (cfg : Config) (b : Ball) (a n : V2) (h : heap) (l : loc) :
  l <> pos b -> l <> vel b -> read (respond cfg b a n h) l = read h l.
Proof.
  intros Hp Hv. unfold respond. cbv zeta.
  destruct (Rgt_dec _ 0); [|reflexivity].
  destruct (Rlt_dec _ 0); rewrite !read_write_other by congruence; reflexivity.
Qed.

Lemma respond_ball_ok (cfg : Config) (b : Ball) (a n : V2) (h : heap) :
  ball_ok b h -> ball_ok b (respond cfg b a n h).
Proof. unfold ball_ok. rewrite respond_length. tauto. Qed.

(** Without penetration the store is left as it is. *)
Lemma respond_clear (cfg : Config) (b : Ball) (a n : V2) (h : heap) :
  BALL_RADIUS cfg <= Vector2.dot (Vector2.sub (read h (pos b)) a) n ->
  respond cfg b a n h = h.
Proof.
  intros Hd. unfold respond. cbv zeta.
  destruct (Rgt_dec _ 0) as [Hgt|_]; [lra | reflexivity].
Qed.

Lemma resolve_edge_hexagon (cfg : Config) (b : Ball) (r angle : R) (i : nat) (h : heap) :
  0 < r -> (i < 6)%nat ->
  resolve_edge cfg b (hexagon_vertices (HEX_CENTER cfg) r angle) i h
  = Ok (respond cfg b (hexagon_vertex (HEX_CENTER cfg) r angle i) (hex_normal angle i) h).
Proof.
  intros Hr Hi. unfold resolve_edge.
  rewrite index_hexagon by assumption. cbn [bind].
  rewrite index_hexagon by (apply Nat.mod_upper_bound; lia). cbn [bind].
  rewrite hexagon_vertex_next by assumption.
  rewrite edge_normal_hexagon by assumption. reflexivity.
Qed.

(** ** One pass over the edges of the hexagon *)

Lemma dot_sym (u v : V2) : Vector2.dot u v = Vector2.dot v u.
Proof. unfold Vector2.dot. ring. Qed.

Lemma dot_hex_normal (q : V2) (angle : R) (i : nat) :
  (i < 6)%nat ->
  Vector2.dot q (hex_normal angle i)
  = edge_coord i (Vector2.dot q (hex_normal angle 0)) (Vector2.dot q (hex_normal angle 1)).
Proof.
  intros Hi.
  destruct i as [|[|[|[|[|[|i]]]]]]; try lia; cbn [edge_coord]; try reflexivity.
  - rewrite hex_normal_2. unfold Vector2.dot, Vector2.sub; simpl; ring.
  - rewrite hex_normal_3. unfold Vector2.dot, Vector2.neg; simpl; ring.
  - rewrite hex_normal_4. unfold Vector2.dot, Vector2.neg; simpl; ring.
  - rewrite hex_normal_5. unfold Vector2.dot, Vector2.sub; simpl; ring.
Qed.

Lemma Rabs_bound (x d : R) : Rabs x <= d -> - d <= x <= d.
Proof. unfold Rabs. destruct (Rcase_abs x); lra. Qed.

Lemma coord_push_cases (m : R) (i : nat) (a b : R) :
  (- m - edge_coord i a b <= 0 /\ coord_push m i (a, b) = (a, b))
  \/ (- m - edge_coord i a b > 0 /\
      coord_push m i (a, b)
      = (a + (- m - edge_coord i a b) * edge_coord i 1 (1 / 2),
         b + (- m - edge_coord i a b) * edge_coord i (1 / 2) 1)).
Proof.
  unfold coord_push. cbn [fst snd].
  destruct (Rgt_dec _ 0) as [H|H]; [right | left]; split; auto; lra.
Qed.

(** The pass keeps every edge coordinate above [- m] when the start is
    within [4 * m] of the centre. *)
Lemma coord_pass_contained (m a b : R) :
  Rabs a <= 4 * m -> Rabs b <= 4 * m -> Rabs (b - a) <= 4 * m ->
  forall i, (i < 6)%nat ->
  - m <= edge_coord i
           (fst (fold_left (fun ab j => coord_push m j ab) (seq 0 6) (a, b)))
           (snd (fold_left (fun ab j => coord_push m j ab) (seq 0 6) (a, b))).
Proof.
  intros Ha Hb Hab i Hi.
  apply Rabs_bound in Ha, Hb, Hab.
  cbn [seq fold_left].
  destruct (coord_push_cases m 0 a b) as [[H0 E0]|[H0 E0]]; rewrite E0; clear E0;
    cbn [edge_coord] in H0;
  match goal with |- context [coord_push m 1 (?x, ?y)] =>
    destruct (coord_push_cases m 1 x y) as [[H1 E1]|[H1 E1]]; rewrite E1; clear E1;
    cbn [edge_coord] in H1 end;
  match goal with |- context [coord_push m 2 (?x, ?y)] =>
    destruct (coord_push_cases m 2 x y) as [[H2 E2]|[H2 E2]]; rewrite E2; clear E2;
    cbn [edge_coord] in H2 end;
  match goal with |- context [coord_push m 3 (?x, ?y)] =>
    destruct (coord_push_cases m 3 x y) as [[H3 E3]|[H3 E3]]; rewrite E3; clear E3;
    cbn [edge_coord] in H3 end;
  match goal with |- context [coord_push m 4 (?x, ?y)] =>
    destruct (coord_push_cases m 4 x y) as [[H4 E4]|[H4 E4]]; rewrite E4; clear E4;
    cbn [edge_coord] in H4 end;
  match goal with |- context [coord_push m 5 (?x, ?y)] =>
    destruct (coord_push_cases m 5 x y) as [[H5 E5]|[H5 E5]]; rewrite E5; clear E5;
    cbn [edge_coord] in H5 end;
  cbn [fst snd];
  (destruct i as [|[|[|[|[|[|i]]]]]]; [| | | | | |lia]; cbn [edge_coord]; lra).
Qed.

Lemma dot_after_push (p c n u : V2) (k : R) :
  Vector2.dot (Vector2.sub (Vector2.add p (Vector2.scale n k)) c) u
  = Vector2.dot (Vector2.sub p c) u + k * Vector2.dot n u.
Proof. unfold Vector2.dot, Vector2.sub, Vector2.add, Vector2.scale; simpl; ring. Qed.

Lemma hex_normal_dot_0 (angle : R) (i : nat) :
  (i < 6)%nat ->
  Vector2.dot (hex_normal angle i) (hex_normal angle 0) = edge_coord i 1 (1 / 2).
Proof.
  intros Hi. rewrite dot_sym, dot_hex_normal by assumption.
  rewrite hex_normal_unit, hex_normal_01. reflexivity.
Qed.

Lemma hex_normal_dot_1 (angle : R) (i : nat) :
  (i < 6)%nat ->
  Vector2.dot (hex_normal angle i) (hex_normal angle 1) = edge_coord i (1 / 2) 1.
Proof.
  intros Hi. rewrite dot_sym, dot_hex_normal by assumption.
  rewrite hex_normal_unit, (dot_sym (hex_normal angle 1)), hex_normal_01. reflexivity.
Qed.

Section Pass.

Variable cfg : Config.
Variable angle : R.

Local Abbreviation c := (HEX_CENTER cfg).
Local Abbreviation r := (HEX_RADIUS cfg).
Local Abbreviation m := (slack cfg).

Lemma push_coords (i : nat) (p : V2) :
  (i < 6)%nat -> (coords cfg angle) ((push_edge cfg angle) p i) = coord_push m i ((coords cfg angle) p).
Proof.
  intros Hi. unfold push_edge, push, coord_push, coords. cbn [fst snd]. cbv zeta.
  rewrite distance_from_center, (dot_hex_normal _ angle i Hi).
  set (A := Vector2.dot (Vector2.sub p c) (hex_normal angle 0)).
  set (B := Vector2.dot (Vector2.sub p c) (hex_normal angle 1)).
  assert (Hpen : BALL_RADIUS cfg - (edge_coord i A B + r * sqrt 3 / 2)
                 = - m - edge_coord i A B)
    by (unfold slack, inradius; lra).
  rewrite Hpen.
  destruct (Rgt_dec (- m - edge_coord i A B) 0) as [Hgt|Hle]; [|reflexivity].
  rewrite !dot_after_push.
  rewrite hex_normal_dot_0, hex_normal_dot_1 by assumption.
  reflexivity.
Qed.

Lemma fold_push_coords (l : list nat) (p : V2) :
  (forall i, In i l -> (i < 6)%nat) ->
  (coords cfg angle) (fold_left (push_edge cfg angle) l p) = fold_left (fun ab j => coord_push m j ab) l ((coords cfg angle) p).
Proof.
  revert p. induction l as [|i l IH]; intros p Hl; [reflexivity|].
  cbn [fold_left]. rewrite IH by (intros j Hj; apply Hl; right; exact Hj).
  rewrite push_coords by (apply Hl; left; reflexivity). reflexivity.
Qed.

Lemma for_each_hexagon (b : Ball) (l : list nat) (h : heap) :
  0 < r -> (forall i, In i l -> (i < 6)%nat) ->
  for_each (resolve_edge cfg b (hexagon_vertices c r angle)) l h
  = Ok (fold_left ((respond_edge cfg angle) b) l h).
Proof.
  intros Hr. revert h. induction l as [|i l IH]; intros h Hl; [reflexivity|].
  cbn [for_each fold_left].
  rewrite resolve_edge_hexagon by (try apply Hl; auto; left; reflexivity).
  cbn [bind]. apply IH. intros j Hj; apply Hl; right; exact Hj.
Qed.

Lemma fold_respond_pos (b : Ball) (l : list nat) (h : heap) :
  ball_ok b h ->
  ball_ok b (fold_left ((respond_edge cfg angle) b) l h) /\
  read (fold_left ((respond_edge cfg angle) b) l h) (pos b)
  = fold_left (push_edge cfg angle) l (read h (pos b)).
Proof.
  revert h. induction l as [|i l IH]; intros h Hok; [split; auto|].
  cbn [fold_left].
  destruct (IH ((respond_edge cfg angle) b h i)) as [Hok' Hread].
  { apply respond_ball_ok; assumption. }
  split; [assumption|]. rewrite Hread. f_equal.
  unfold respond_edge, push_edge. apply respond_pos; assumption.
Qed.

Lemma fold_respond_frame (b : Ball) (l : list nat) (h : heap) (k : loc) :
  k <> pos b -> k <> vel b ->
  read (fold_left ((respond_edge cfg angle) b) l h) k = read h k.
Proof.
  intros Hp Hv. revert h. induction l as [|i l IH]; intros h; [reflexivity|].
  cbn [fold_left]. rewrite IH. apply respond_frame; assumption.
Qed.

Lemma fold_respond_length (b : Ball) (l : list nat) (h : heap) :
  length (fold_left ((respond_edge cfg angle) b) l h) = length h.
Proof.
  revert h. induction l as [|i l IH]; intros h; [reflexivity|].
  cbn [fold_left]. rewrite IH. apply respond_length.
Qed.

Lemma seq_0_6_bound (i : nat) : In i (seq 0 6) -> (i < 6)%nat.
Proof. intros H. apply in_seq in H. lia. Qed.

Lemma resolve_collision_hexagon (b : Ball) (a' dt : R) (h : heap) :
  0 < r ->
  resolve_collision cfg b (hexagon_vertices c r angle) a' dt h
  = Ok (fold_left ((respond_edge cfg angle) b) (seq 0 6) h).
Proof.
  intros Hr. unfold resolve_collision. apply for_each_hexagon; auto using seq_0_6_bound.
Qed.

Lemma signed_distance_hexagon (i : nat) (p : V2) :
  0 < r -> (i < 6)%nat ->
  signed_distance cfg (hexagon_vertices c r angle) i p
  = Some (edge_coord i (fst ((coords cfg angle) p)) (snd ((coords cfg angle) p)) + inradius cfg).
Proof.
  intros Hr Hi. unfold signed_distance.
  rewrite index_hexagon by assumption.
  rewrite index_hexagon by (apply Nat.mod_upper_bound; lia).
  rewrite hexagon_vertex_next by assumption.
  rewrite edge_normal_hexagon by assumption.
  rewrite distance_from_center, (dot_hex_normal _ angle i Hi).
  reflexivity.
Qed.

Lemma dot_le_length (q n : V2) :
  Vector2.dot n n = 1 -> Rabs (Vector2.dot q n) <= Vector2.length q.
Proof.
  intros Hn.
  pose proof (length_sqr q) as Hsq.
  assert (HL : 0 <= Vector2.length q) by (unfold Vector2.length; apply sqrt_pos).
  set (L := Vector2.length q) in *.
  unfold Vector2.length_squared, Vector2.dot in *.
  destruct q as [qx qy], n as [nx ny]; cbn [Vector2.x Vector2.y] in *.
  assert (Hcs : (qx * nx + qy * ny) * (qx * nx + qy * ny) <= L * L).
  { rewrite Hsq.
    replace (qx * qx + qy * qy) with ((qx * qx + qy * qy) * (nx * nx + ny * ny))
      by (rewrite Hn; ring).
    pose proof (Rle_0_sqr (qx * ny - qy * nx)) as Hs. unfold Rsqr in Hs.
    assert (He : (qx * qx + qy * qy) * (nx * nx + ny * ny)
             - (qx * nx + qy * ny) * (qx * nx + qy * ny)
             = (qx * ny - qy * nx) * (qx * ny - qy * nx)) by ring.
    lra. }
  apply Rabs_le. split; nra.
Qed.

(** After one pass every edge is at least a ball radius away, when the
    ball starts within four times the slack of the centre. *)
Lemma hexagon_pass_contained (b : Ball) (a' dt : R) (h : heap) :
  0 < r -> ball_ok b h ->
  Vector2.length (Vector2.sub (read h (pos b)) c) <= 4 * m ->
  exists h',
    resolve_collision cfg b (hexagon_vertices c r angle) a' dt h = Ok h' /\
    length h' = length h /\
    forall i, (i < 6)%nat ->
      exists d, signed_distance cfg (hexagon_vertices c r angle) i (read h' (pos b))
                = Some d /\ BALL_RADIUS cfg <= d.
Proof.
  intros Hr Hok Hlen.
  exists (fold_left ((respond_edge cfg angle) b) (seq 0 6) h).
  split; [apply resolve_collision_hexagon; assumption|].
  split; [apply fold_respond_length|].
  intros i Hi. eexists. split; [apply signed_distance_hexagon; assumption|].
  destruct (fold_respond_pos b (seq 0 6) h Hok) as [_ ->].
  rewrite (fold_push_coords (seq 0 6)) by auto using seq_0_6_bound.
  set (q := Vector2.sub (read h (pos b)) c) in *.
  pose proof (dot_le_length q _ (hex_normal_unit angle 0)) as H0.
  pose proof (dot_le_length q _ (hex_normal_unit angle 1)) as H1.
  pose proof (dot_le_length q _ (hex_normal_unit angle 2)) as H2.
  rewrite (dot_hex_normal q angle 2) in H2 by lia. cbn [edge_coord] in H2.
  assert (Hc : - m <= edge_coord i
     (fst (fold_left (fun ab j => coord_push m j ab) (seq 0 6) ((coords cfg angle) (read h (pos b)))))
     (snd (fold_left (fun ab j => coord_push m j ab) (seq 0 6) ((coords cfg angle) (read h (pos b)))))).
  { unfold coords. fold q. apply coord_pass_contained; try assumption; lra. }
  unfold slack in Hc at 1. lra.
Qed.

(** A ball that touches no edge is left alone. *)
Lemma hexagon_pass_clear (b : Ball) (a' dt : R) (h : heap) :
  0 < r ->
  Vector2.length (Vector2.sub (read h (pos b)) c) <= m ->
  resolve_collision cfg b (hexagon_vertices c r angle) a' dt h = Ok h.
Proof.
  intros Hr Hlen. rewrite resolve_collision_hexagon by assumption. f_equal.
  assert (Hstep : forall i, (respond_edge cfg angle) b h i = h).
  { intros i. unfold respond_edge. apply respond_clear.
    rewrite distance_from_center.
    pose proof (dot_le_length (Vector2.sub (read h (pos b)) c) _ (hex_normal_unit angle i))
      as Hd.
    apply Rabs_bound in Hd. unfold slack, inradius in Hlen. lra. }
  cbn [seq fold_left]. rewrite !Hstep. reflexivity.
Qed.

End Pass.

(** ** Loops over the edges *)

Lemma resolve_edge_raises (cfg : Config) (b : Ball) (vertices : list V2) (i : nat)
      (h : heap) (e : exn) :
  resolve_edge cfg b vertices i h = Raise e -> e = IndexError.
Proof.
  unfold resolve_edge, index.
  destruct (nth_error vertices i) as [a|]; cbn [bind]; [|congruence].
  destruct (nth_error vertices ((i + 1) mod 6)) as [b'|]; cbn [bind]; [|congruence].
  destruct (edge_normal_total cfg a b') as [o ->]. cbn [bind].
  destruct o; discriminate.
Qed.

Lemma resolve_edge_ok (cfg : Config) (b : Ball) (vertices : list V2) (i : nat) (h : heap) :
  (6 <= length vertices)%nat -> (i < 6)%nat ->
  exists h', resolve_edge cfg b vertices i h = Ok h'.
Proof.
  intros Hlen Hi. unfold resolve_edge, index.
  destruct (nth_error vertices i) as [a|] eqn:Ea.
  2:{ apply nth_error_None in Ea. lia. }
  destruct (nth_error vertices ((i + 1) mod 6)) as [b'|] eqn:Eb.
  2:{ apply nth_error_None in Eb.
      pose proof (Nat.mod_upper_bound (i + 1) 6 ltac:(lia)). lia. }
  cbn [bind]. destruct (edge_normal_total cfg a b') as [o ->]. cbn [bind].
  destruct o; eexists; reflexivity.
Qed.

Lemma for_each_raises (body : nat -> heap -> result heap) (P : exn -> Prop) :
  (forall i h e, body i h = Raise e -> P e) ->
  forall l h e, for_each body l h = Raise e -> P e.
Proof.
  intros Hbody l. induction l as [|i l IH]; intros h e; cbn [for_each]; [discriminate|].
  destruct (body i h) as [h'|e'] eqn:E; cbn [bind].
  - apply IH.
  - intros [= <-]. eapply Hbody; eassumption.
Qed.

Lemma for_each_ok (body : nat -> heap -> result heap) (l : list nat) :
  (forall i h, In i l -> exists h', body i h = Ok h') ->
  forall h, exists h', for_each body l h = Ok h'.
Proof.
  induction l as [|i l IH]; intros Hbody h; cbn [for_each]; [eexists; reflexivity|].
  destruct (Hbody i h (or_introl eq_refl)) as [h1 ->]. cbn [bind].
  apply IH. intros j h2 Hj. apply Hbody. right; exact Hj.
Qed.

(** * The claims *)

(** C8: a free-motion step over [dt = 0] is the identity.  Whatever the
    ball and the force, [apply_force] and [integrate] with [dt = 0] leave the
    store, and with it the ball's velocity and position, as they were (the
    mass is not zero, as in the program, so that the division is defined). *)
Theorem C8_integration_dt_zero (cfg : Config) (b : Ball) (force : V2) (h : heap) :
  BALL_MASS cfg <> 0 ->
  apply_force cfg b force 0 h = Ok h /\
  integrate b 0 h = h /\
  (do h1 <- apply_force cfg b force 0 h; Ok (integrate b 0 h1)) = Ok h.
Proof.
  intros Hm.
  assert (Hf : apply_force cfg b force 0 h = Ok h).
  { unfold apply_force, vdiv. destruct (Req_dec_T (BALL_MASS cfg) 0); [contradiction|].
    cbn [bind]. rewrite add_scale_0, write_read. reflexivity. }
  assert (Hi : integrate b 0 h = h).
  { unfold integrate. rewrite add_scale_0, write_read. reflexivity. }
  repeat split; try assumption. rewrite Hf. cbn [bind]. rewrite Hi. reflexivity.
Qed.

Lemma C8_integration_dt_zero_witness :
  apply_force source (ball initial_world) (GRAVITY source) 0 (mem initial_world)
  = Ok (mem initial_world).
Proof.
  apply (C8_integration_dt_zero source (ball initial_world) (GRAVITY source)
           (mem initial_world)).
  simpl. lra.
Defined.

(** C7: for an edge of non-zero length the normal that the collision code
    uses is a unit vector whose dot product with the vector from the middle
    of the edge to the centre of the container is not negative, whichever
    way the vertices wind; it is the normal [resolve_edge] responds with. *)
Theorem C7_normal_points_inward (cfg : Config) (a b : V2) :
  a <> b ->
  exists n,
    edge_normal cfg a b = Ok (Some n) /\
    Vector2.length n = 1 /\
    0 <= Vector2.dot n
           (Vector2.sub (HEX_CENTER cfg) (Vector2.scale (Vector2.add a b) (5 / 10))) /\
    forall (ball : Ball) (vertices : list V2) (i : nat) (h : heap),
      index vertices i = Ok a ->
      index vertices ((i + 1) mod 6) = Ok b ->
      resolve_edge cfg ball vertices i h = Ok (respond cfg ball a n h).
Proof.
  intros Hab. destruct (edge_normal_some cfg a b Hab) as [n Hn].
  destruct (edge_normal_spec cfg a b n Hn) as [Hunit Hin].
  exists n. repeat split; try assumption.
  - unfold Vector2.length, Vector2.length_squared. rewrite Hunit. apply sqrt_1.
  - intros ball vertices i h Ha Hb. unfold resolve_edge.
    rewrite Ha, Hb. cbn [bind]. rewrite Hn. reflexivity.
Qed.

Lemma C7_normal_points_inward_witness :
  exists n, edge_normal source (vec 0 0) (vec 1 0) = Ok (Some n) /\ Vector2.length n = 1.
Proof.
  destruct (C7_normal_points_inward source (vec 0 0) (vec 1 0)) as (n & Hn & Hl & _).
  - intros H. injection H. lra.
  - exists n. split; assumption.
Defined.

(** C9: collision resolution never normalizes a vector of length zero.  The
    normal of an edge is computed without an exception for every pair of
    vertices, an edge whose ends coincide is skipped, the whole pass raises
    neither [ValueError] nor [ZeroDivisionError] on any vertex list, and on
    a list of (at least) six vertices it returns. *)
Theorem C9_resolve_collision_total (cfg : Config) (b : Ball) (vertices : list V2)
        (angle dt : R) (h : heap) :
  (forall a c, exists o, edge_normal cfg a c = Ok o) /\
  (forall a, edge_normal cfg a a = Ok None) /\
  (forall i, index vertices i = index vertices ((i + 1) mod 6) ->
             resolve_edge cfg b vertices i h = Ok h
             \/ resolve_edge cfg b vertices i h = Raise IndexError) /\
  resolve_collision cfg b vertices angle dt h <> Raise ValueError /\
  resolve_collision cfg b vertices angle dt h <> Raise ZeroDivisionError /\
  ((6 <= length vertices)%nat ->
   exists h', resolve_collision cfg b vertices angle dt h = Ok h').
Proof.
  assert (Hskip : forall a, edge_normal cfg a a = Ok None).
  { intros a. unfold edge_normal. cbv zeta.
    destruct (Req_dec_T _ 0) as [_|NE]; [reflexivity|].
    exfalso. apply NE. unfold Vector2.length_squared, Vector2.dot, Vector2.sub. simpl. ring. }
  split; [apply edge_normal_total|].
  split; [exact Hskip|].
  split.
  { intros i Hi. unfold resolve_edge. rewrite <- Hi.
    destruct (index vertices i) as [a|e] eqn:E; cbn [bind].
    - rewrite Hskip. left; reflexivity.
    - right. unfold index in E. destruct (nth_error vertices i); congruence. }
  split; [|split].
  - intros H. apply (for_each_raises _ (fun e => e = IndexError)) in H; [discriminate|].
    apply resolve_edge_raises.
  - intros H. apply (for_each_raises _ (fun e => e = IndexError)) in H; [discriminate|].
    apply resolve_edge_raises.
  - intros Hlen. apply for_each_ok. intros i h0 Hi.
    apply resolve_edge_ok; [assumption|]. apply in_seq in Hi. lia.
Qed.

Lemma C9_resolve_collision_total_witness :
  exists h',
    resolve_collision source (ball initial_world)
      [vec 1 1; vec 1 1; vec 1 1; vec 1 1; vec 1 1; vec 1 1] 0 0 (mem initial_world)
    = Ok h'.
Proof.
  apply (C9_resolve_collision_total source (ball initial_world)
           [vec 1 1; vec 1 1; vec 1 1; vec 1 1; vec 1 1; vec 1 1] 0 0 (mem initial_world)).
  simpl. lia.
Defined.

(** C6: [hexagon_vertices] returns six vertices; vertex [i] is at polar
    angle [angle + i * (2 pi / 6)] around the centre at radius [radius], so
    its Euclidean distance from the centre is [radius] (for a radius that is
    not negative, as a distance is); each vertex is its predecessor turned
    by 60 degrees about the centre, the first following the last; and equal
    inputs give equal outputs. *)
Theorem C6_hexagon_vertices (center : V2) (radius angle : R) :
  length (hexagon_vertices center radius angle) = 6%nat /\
  (forall i, (i < 6)%nat ->
     let v := nth i (hexagon_vertices center radius angle) Vector2.zero in
     let w := nth ((i + 1) mod 6) (hexagon_vertices center radius angle) Vector2.zero in
     v = vec (Vector2.x center + radius * cos (angle + INR i * (2 * PI / 6)))
             (Vector2.y center + radius * sin (angle + INR i * (2 * PI / 6))) /\
     (0 <= radius -> Vector2.length (Vector2.sub v center) = radius) /\
     Vector2.sub w center = rotate (PI / 3) (Vector2.sub v center)) /\
  (forall center' radius' angle',
     center' = center -> radius' = radius -> angle' = angle ->
     hexagon_vertices center' radius' angle' = hexagon_vertices center radius angle).
Proof.
  assert (Hnth : forall i, (i < 6)%nat ->
            nth i (hexagon_vertices center radius angle) Vector2.zero
            = hexagon_vertex center radius angle i).
  { intros i Hi. unfold hexagon_vertices.
    do 6 (destruct i as [|i]; [reflexivity|]). lia. }
  split; [reflexivity|]. split.
  - intros i Hi. cbv zeta.
    rewrite (Hnth i Hi), (Hnth ((i + 1) mod 6)%nat) by (apply Nat.mod_upper_bound; lia).
    split; [|split].
    + unfold hexagon_vertex. cbv zeta.
      replace (angle + INR i * tau / 6) with (angle + INR i * (2 * PI / 6))
        by (unfold tau; lra).
      reflexivity.
    + intros Hr.
      unfold hexagon_vertex, Vector2.length, Vector2.length_squared, Vector2.dot,
        Vector2.sub. cbv zeta. cbn [Vector2.x Vector2.y].
      set (t := angle + INR i * tau / 6).
      replace ((Vector2.x center + radius * cos t - Vector2.x center)
               * (Vector2.x center + radius * cos t - Vector2.x center)
               + (Vector2.y center + radius * sin t - Vector2.y center)
                 * (Vector2.y center + radius * sin t - Vector2.y center))
        with (radius * radius * (cos t * cos t + sin t * sin t)) by ring.
      rewrite cos_sin_unit, Rmult_1_r. apply sqrt_square; assumption.
    + rewrite hexagon_vertex_next by assumption. apply hexagon_vertex_succ.
  - intros center' radius' angle' -> -> ->. reflexivity.
Qed.

Lemma C6_hexagon_vertices_witness :
  Vector2.length
    (Vector2.sub (nth 0 (hexagon_vertices (HEX_CENTER source) (HEX_RADIUS source) 0)
                    Vector2.zero)
                 (HEX_CENTER source))
  = HEX_RADIUS source.
Proof.
  destruct (C6_hexagon_vertices (HEX_CENTER source) (HEX_RADIUS source) 0)
    as (_ & H & _).
  destruct (H 0%nat ltac:(lia)) as (_ & Hd & _).
  apply Hd. cbn. lra.
Defined.

(** The response to one penetrated edge: what one iteration of the loop of
    [resolve_collision] does to the ball's velocity. *)
Lemma resolve_edge_response (cfg : Config) (ball : Ball) (vertices : list V2) (i : nat)
        (h : heap) (a b n : V2) :
  ball_ok ball h ->
  index vertices i = Ok a ->
  index vertices ((i + 1) mod 6) = Ok b ->
  edge_normal cfg a b = Ok (Some n) ->
  let p := read h (pos ball) in
  let v := read h (vel ball) in
  let penetration := BALL_RADIUS cfg - Vector2.dot (Vector2.sub p a) n in
  let rel := Vector2.sub v (wall_velocity cfg (Vector2.add p (Vector2.scale n penetration))) in
  let vn := Vector2.dot rel n in
  let tangent := vec (- Vector2.y n) (Vector2.x n) in
  penetration > 0 ->
  exists h',
    resolve_edge cfg ball vertices i h = Ok h' /\
    (vn < 0 ->
     read h' (vel ball)
     = Vector2.add (Vector2.sub v (Vector2.scale n ((1 + RESTITUTION cfg) * vn)))
                   (Vector2.scale tangent (- Vector2.dot rel tangent * FRICTION cfg))) /\
    (0 <= vn -> read h' (vel ball) = v) /\
    (ANGULAR_SPEED cfg = 0 -> RESTITUTION cfg = 85 / 100 -> vn = -100 ->
     Vector2.dot v n = -100 /\ Vector2.dot (read h' (vel ball)) n = 85).
Proof.
  intros (Hp & Hv & Hne) Ha Hb Hn p v penetration rel vn tangent Hpen.
  destruct (edge_normal_spec cfg a b n Hn) as [Hunit _].
  exists (respond cfg ball a n h).
  split.
  { unfold resolve_edge. rewrite Ha, Hb. cbn [bind]. rewrite Hn. reflexivity. }
  assert (Hneg : vn < 0 ->
     read (respond cfg ball a n h) (vel ball)
     = Vector2.add (Vector2.sub v (Vector2.scale n ((1 + RESTITUTION cfg) * vn)))
                   (Vector2.scale tangent (- Vector2.dot rel tangent * FRICTION cfg))).
  { intros Hvn. unfold respond. cbv zeta. fold p. fold penetration.
    destruct (Rgt_dec penetration 0) as [_|C]; [|contradiction].
    rewrite (read_write_same h (pos ball)) by assumption.
    rewrite (read_write_other h (pos ball) (vel ball)) by assumption.
    fold v. fold rel. fold vn.
    destruct (Rlt_dec vn 0) as [_|C]; [|contradiction].
    rewrite read_write_same by (rewrite !write_length; assumption).
    rewrite read_write_same by (rewrite write_length; assumption).
    reflexivity. }
  split; [exact Hneg|]. split.
  { intros Hvn. unfold respond. cbv zeta. fold p. fold penetration.
    destruct (Rgt_dec penetration 0) as [_|C]; [|contradiction].
    rewrite (read_write_same h (pos ball)) by assumption.
    rewrite (read_write_other h (pos ball) (vel ball)) by assumption.
    fold v. fold rel. fold vn.
    destruct (Rlt_dec vn 0) as [C|_]; [lra|].
    apply read_write_other; assumption. }
  intros Hw He Hvn.
  assert (Hrel : rel = v).
  { unfold rel, wall_velocity. cbv zeta. rewrite Hw. apply vec_eq; simpl; ring. }
  assert (Hdot : Vector2.dot v n = -100) by (rewrite <- Hrel; exact Hvn).
  split; [exact Hdot|].
  rewrite Hneg by lra. rewrite Hrel, He.
  unfold vn in Hvn. rewrite Hrel in Hvn.
  unfold tangent.
  unfold Vector2.dot, Vector2.add, Vector2.sub, Vector2.scale in *.
  cbn [Vector2.x Vector2.y] in *.
  set (k := - (Vector2.x v * - Vector2.y n + Vector2.y v * Vector2.x n) * FRICTION cfg).
  replace ((Vector2.x v - Vector2.x n * ((1 + 85 / 100) * vn) + - Vector2.y n * k)
           * Vector2.x n
           + (Vector2.y v - Vector2.y n * ((1 + 85 / 100) * vn) + Vector2.x n * k)
             * Vector2.y n)
    with ((Vector2.x v * Vector2.x n + Vector2.y v * Vector2.y n)
          - (1 + 85 / 100) * vn * (Vector2.x n * Vector2.x n + Vector2.y n * Vector2.y n))
    by ring.
  rewrite Hunit, Hvn. unfold vn. rewrite Hrel.
  unfold Vector2.dot. rewrite Hvn. lra.
Qed.

(** ** The steps of the main loop *)

Lemma py_max_pos (dt : R) : 0 < py_max dt (1 / 1000000).
Proof. unfold py_max. destruct (Rgt_dec _ dt); lra. Qed.

Lemma length_le (u : V2) (d : R) :
  0 <= d -> Vector2.length_squared u <= d * d -> Vector2.length u <= d.
Proof.
  intros Hd Hsq. unfold Vector2.length.
  rewrite <- (sqrt_square d) by assumption.
  apply sqrt_le_1; try assumption.
  - apply length_squared_nonneg.
  - nra.
Qed.

Lemma sqrt3_bounds : 1732 / 1000 < sqrt 3 < 17321 / 10000.
Proof.
  pose proof sqrt3_sqr. pose proof sqrt3_pos. split; nra.
Qed.

(** The ball held by the mouse: three new objects, no integration. *)
Lemma move_ball_held (cfg : Config) (dt : R) (mouse_pos : Z * Z) (w : World) :
  active (drag w) = true ->
  (grab_offset (drag w) < length (mem w))%nat ->
  (last_mouse (drag w) < length (mem w))%nat ->
  move_ball cfg dt mouse_pos w
  = Ok {| mem := mem w
                 ++ [Vector2_of mouse_pos;
                     Vector2.add (Vector2_of mouse_pos) (read (mem w) (grab_offset (drag w)));
                     vec (Vector2.x (Vector2.sub (Vector2_of mouse_pos)
                                       (read (mem w) (last_mouse (drag w))))
                          / py_max dt (1 / 1000000))
                         (Vector2.y (Vector2.sub (Vector2_of mouse_pos)
                                       (read (mem w) (last_mouse (drag w))))
                          / py_max dt (1 / 1000000))];
          ball := {| pos := S (length (mem w)); vel := vel (ball w) |};
          drag := {| active := true; grab_offset := grab_offset (drag w);
                     last_mouse := length (mem w);
                     throw_vel := S (S (length (mem w))) |};
          angle := angle w; running := running w |}.
Proof.
  intros Ha Hg Hl. unfold move_ball, alloc. rewrite Ha.
  rewrite read_app_new.
  rewrite (read_app_old (mem w)) by assumption.
  rewrite (read_app_old (mem w ++ [Vector2_of mouse_pos])), read_app_new
    by (rewrite length_app; simpl; lia).
  rewrite (read_app_old (mem w ++ [Vector2_of mouse_pos])), (read_app_old (mem w))
    by (rewrite ?length_app; simpl; lia).
  unfold vdiv. pose proof (py_max_pos dt) as Hpos.
  destruct (Req_dec_T _ 0) as [E|_]; [lra|].
  cbn [bind]. rewrite !length_app. cbn [length].
  rewrite <- !app_assoc. cbn [app].
  repeat f_equal; lia.
Qed.

(** The ball in free fall. *)
Lemma move_ball_free (cfg : Config) (dt : R) (mouse_pos : Z * Z) (w : World) :
  active (drag w) = false ->
  BALL_MASS cfg <> 0 ->
  move_ball cfg dt mouse_pos w
  = Ok {| mem := integrate (ball w) dt
                   (write (mem w) (vel (ball w))
                      (Vector2.add (read (mem w) (vel (ball w)))
                         (Vector2.scale (vec (Vector2.x (GRAVITY cfg) / BALL_MASS cfg)
                                             (Vector2.y (GRAVITY cfg) / BALL_MASS cfg)) dt)));
          ball := ball w; drag := drag w; angle := angle w; running := running w |}.
Proof.
  intros Ha Hm. unfold move_ball, apply_force, vdiv. rewrite Ha.
  destruct (Req_dec_T _ 0) as [E|_]; [contradiction|]. reflexivity.
Qed.

Lemma turn_and_collide_clear (cfg : Config) (dt : R) (w : World) :
  0 < HEX_RADIUS cfg ->
  Vector2.length (Vector2.sub (ball_position w) (HEX_CENTER cfg)) <= slack cfg ->
  turn_and_collide cfg dt w
  = Ok {| mem := mem w; ball := ball w; drag := drag w;
          angle := angle w + ANGULAR_SPEED cfg * dt; running := running w |}.
Proof.
  intros Hr Hlen. unfold turn_and_collide. cbv zeta.
  rewrite hexagon_pass_clear by assumption. reflexivity.
Qed.

Lemma turn_and_collide_contained (cfg : Config) (dt : R) (w : World) :
  0 < HEX_RADIUS cfg ->
  ball_ok (ball w) (mem w) ->
  Vector2.length (Vector2.sub (ball_position w) (HEX_CENTER cfg)) <= 4 * slack cfg ->
  exists w',
    turn_and_collide cfg dt w = Ok w' /\
    ball w' = ball w /\ drag w' = drag w /\ running w' = running w /\
    angle w' = angle w + ANGULAR_SPEED cfg * dt /\
    length (mem w') = length (mem w) /\
    forall i, (i < 6)%nat ->
      exists d,
        signed_distance cfg
          (hexagon_vertices (HEX_CENTER cfg) (HEX_RADIUS cfg) (angle w')) i
          (ball_position w') = Some d /\
        BALL_RADIUS cfg <= d.
Proof.
  intros Hr Hok Hlen. unfold turn_and_collide. cbv zeta.
  destruct (hexagon_pass_contained cfg (angle w + ANGULAR_SPEED cfg * dt) (ball w)
              (angle w + ANGULAR_SPEED cfg * dt) dt (mem w) Hr Hok Hlen)
    as (h' & Hres & Hl & Hd).
  rewrite Hres. cbn [bind]. eexists. split; [reflexivity|].
  cbn [ball drag running angle mem]. repeat split; try assumption.
Qed.

(** A point near the centre is a ball radius away from every edge. *)
Lemma clear_distance (cfg : Config) (angle : R) (p : V2) (i : nat) :
  0 < HEX_RADIUS cfg -> (i < 6)%nat ->
  Vector2.length (Vector2.sub p (HEX_CENTER cfg)) <= slack cfg ->
  exists d,
    signed_distance cfg (hexagon_vertices (HEX_CENTER cfg) (HEX_RADIUS cfg) angle) i p
    = Some d /\ BALL_RADIUS cfg <= d.
Proof.
  intros Hr Hi Hlen. eexists. split; [apply signed_distance_hexagon; assumption|].
  unfold coords. cbn [fst snd]. rewrite <- dot_hex_normal by assumption.
  pose proof (dot_le_length (Vector2.sub p (HEX_CENTER cfg)) _ (hex_normal_unit angle i)) as Hd.
  apply Rabs_bound in Hd. unfold slack in Hlen. lra.
Qed.

Ltac eval_world :=
  unfold ball_position, ball_velocity; cbn; unfold WIDTH, HEIGHT; cbn.

Lemma source_center : HEX_CENTER source = vec 450 350.
Proof. reflexivity. Qed.

Lemma source_slack : 189 <= slack source.
Proof.
  unfold slack, inradius. cbn [HEX_RADIUS BALL_RADIUS source].
  pose proof sqrt3_bounds. lra.
Qed.

Lemma near_center (p : V2) :
  (Vector2.x p - 450) * (Vector2.x p - 450) + (Vector2.y p - 350) * (Vector2.y p - 350)
  <= 189 * 189 ->
  Vector2.length (Vector2.sub p (HEX_CENTER source)) <= slack source.
Proof.
  intros H. apply Rle_trans with 189; [|apply source_slack].
  apply length_le; [lra|].
  rewrite source_center. unfold Vector2.length_squared, Vector2.dot, Vector2.sub.
  cbn [Vector2.x Vector2.y]. exact H.
Qed.

Lemma source_radius : 0 < HEX_RADIUS source.
Proof. cbn. lra. Qed.

Lemma source_mass : BALL_MASS source <> 0.
Proof. cbn. lra. Qed.

(** C5: free motion is integrated by the semi-implicit Euler rule: the
    velocity first gains [(GRAVITY / BALL_MASS) * dt] and the position then
    moves by the new velocity times [dt].  From the start of the program
    (ball at (450, 230) with velocity (180, 0), gravity (0, 900)) one tick of
    [dt = 1/60] without events raises the vertical velocity by exactly 15
    and leaves the ball a ball radius or more inside every edge. *)
Theorem C5_semi_implicit_euler :
  (forall (cfg : Config) (dt : R) (mouse_pos : Z * Z) (w : World),
     active (drag w) = false ->
     BALL_MASS cfg <> 0 ->
     ball_ok (ball w) (mem w) ->
     exists w1,
       move_ball cfg dt mouse_pos w = Ok w1 /\
       ball_velocity w1
       = Vector2.add (ball_velocity w)
           (Vector2.scale (vec (Vector2.x (GRAVITY cfg) / BALL_MASS cfg)
                               (Vector2.y (GRAVITY cfg) / BALL_MASS cfg)) dt) /\
       ball_position w1
       = Vector2.add (ball_position w) (Vector2.scale (ball_velocity w1) dt)) /\
  (forall mouse_pos : Z * Z,
     ball_position initial_world = vec 450 230 /\
     ball_velocity initial_world = vec 180 0 /\
     exists w',
       loop_body source (1 / 60) [] mouse_pos initial_world = Ok w' /\
       Vector2.x (ball_velocity w') = 180 /\
       Vector2.y (ball_velocity w') = Vector2.y (ball_velocity initial_world) + 15 /\
       ball_position w' = vec 453 (230 + 15 / 60) /\
       forall i, (i < 6)%nat ->
         exists d,
           signed_distance source
             (hexagon_vertices (HEX_CENTER source) (HEX_RADIUS source) (angle w')) i
             (ball_position w') = Some d /\
           BALL_RADIUS source <= d).
Proof.
  split.
  - intros cfg dt mouse_pos w Ha Hm (Hp & Hv & Hne).
    rewrite move_ball_free by assumption.
    eexists. split; [reflexivity|].
    unfold ball_velocity, ball_position, integrate. cbn [mem ball].
    assert (Hvel : forall v h', read (write (write (mem w) (vel (ball w)) v) (pos (ball w)) h')
                                  (vel (ball w)) = v).
    { intros v h'. rewrite read_write_other by assumption.
      apply read_write_same; assumption. }
    split; [apply Hvel|].
    rewrite read_write_same by (rewrite write_length; assumption).
    rewrite Hvel. rewrite !read_write_other by congruence.
    rewrite read_write_same by assumption. reflexivity.
  - intros mouse_pos.
    split; [eval_world; apply vec_eq; cbn; lra|].
    split; [reflexivity|].
    unfold loop_body. cbn [fold_left].
    rewrite move_ball_free by (try reflexivity; apply source_mass).
    cbn [bind].
    rewrite turn_and_collide_clear.
    2: apply source_radius.
    2:{ apply near_center. eval_world. nra. }
    eexists. split; [reflexivity|].
    split; [eval_world; lra|].
    split; [eval_world; lra|].
    split; [eval_world; apply vec_eq; cbn; lra|].
    intros i Hi. apply clear_distance; [apply source_radius | assumption |].
    apply near_center. eval_world. nra.
Qed.

Lemma C5_semi_implicit_euler_witness :
  exists w1,
    move_ball source (1 / 60) (0, 0)%Z initial_world = Ok w1 /\
    ball_velocity w1
    = Vector2.add (ball_velocity initial_world)
        (Vector2.scale (vec (Vector2.x (GRAVITY source) / BALL_MASS source)
                            (Vector2.y (GRAVITY source) / BALL_MASS source)) (1 / 60)).
Proof.
  destruct (proj1 C5_semi_implicit_euler source (1 / 60) (0, 0)%Z initial_world)
    as (w1 & H1 & H2 & _).
  - reflexivity.
  - cbn. lra.
  - unfold ball_ok. cbn. lia.
  - exists w1. split; assumption.
Defined.

(** ** A grab, a throw and a stray release *)

Lemma py_max_frame : py_max (1 / 60) (1 / 1000000) = 1 / 60.
Proof. unfold py_max. destruct (Rgt_dec _ _); lra. Qed.

(** The ball is dragged ten pixels to the right in one frame and let go; in
    the frame after that the button is released once more. *)
Lemma throw_run :
  exists w1 w2,
    loop_body source (1 / 60) [] (460, 230)%Z dragging_world = Ok w1 /\
    active (drag w1) = true /\
    read (mem w1) (throw_vel (drag w1)) = vec 600 0 /\
    ball_velocity (handle_event source w1 (MOUSEBUTTONUP 1)) = vec 0 0 /\
    active (drag (handle_event source w1 (MOUSEBUTTONUP 1))) = false /\
    loop_body source (1 / 60) [MOUSEBUTTONUP 1] (460, 230)%Z w1 = Ok w2 /\
    active (drag w2) = false /\
    ball_velocity w2 = vec 0 15 /\
    ball_position w2 = vec 460 (230 + 15 / 60) /\
    ball_velocity (handle_event source w2 (MOUSEBUTTONUP 1)) = vec 0 0 /\
    ball_position (handle_event source w2 (MOUSEBUTTONUP 1)) = ball_position w2.
Proof.
  eexists. eexists.
  split.
  { unfold loop_body. cbn [fold_left].
    rewrite move_ball_held by (cbn; try reflexivity; lia).
    cbn [bind]. rewrite turn_and_collide_clear; [reflexivity | apply source_radius |].
    apply near_center. eval_world. nra. }
  split; [reflexivity|].
  split.
  { cbn. rewrite py_max_frame. apply vec_eq; cbn; lra. }
  split; [reflexivity|].
  split; [reflexivity|].
  split.
  { unfold loop_body. cbn [fold_left].
    rewrite move_ball_free by (try reflexivity; apply source_mass).
    cbn [bind]. rewrite turn_and_collide_clear; [reflexivity | apply source_radius |].
    apply near_center. eval_world. nra. }
  split; [reflexivity|].
  split; [eval_world; apply vec_eq; cbn; lra|].
  split; [eval_world; apply vec_eq; cbn; lra|].
  split; [reflexivity|].
  reflexivity.
Qed.

(** C1 (the program departs from the claim): [ball.vel = drag.throw_vel]
    makes the ball's velocity the very object that [drag.reset()] then sets
    to zero.  After a drag of ten pixels in a frame of 1/60 s the throw
    velocity is (600, 0), yet right after the release the ball's velocity is
    (0, 0), and at the end of that frame it is (0, 15): gravity alone. *)
Theorem C1_release_loses_throw :
  exists w1 w2,
    loop_body source (1 / 60) [] (460, 230)%Z dragging_world = Ok w1 /\
    active (drag w1) = true /\
    read (mem w1) (throw_vel (drag w1)) = vec 600 0 /\
    ball_velocity (handle_event source w1 (MOUSEBUTTONUP 1)) = vec 0 0 /\
    active (drag (handle_event source w1 (MOUSEBUTTONUP 1))) = false /\
    loop_body source (1 / 60) [MOUSEBUTTONUP 1] (460, 230)%Z w1 = Ok w2 /\
    ball_velocity w2 = vec 0 15.
Proof.
  destruct throw_run as (w1 & w2 & H1 & H2 & H3 & H4 & H5 & H6 & _ & H8 & _).
  exists w1, w2. repeat split; assumption.
Qed.

(** C10 (the program departs from the claim): after a throw the ball's
    velocity is still the object [drag.throw_vel], so a release that arrives
    while nothing is held sets the velocity of the falling ball to zero; the
    position is kept. *)
Theorem C10_stray_release_stops_ball :
  exists w1 w2,
    loop_body source (1 / 60) [] (460, 230)%Z dragging_world = Ok w1 /\
    loop_body source (1 / 60) [MOUSEBUTTONUP 1] (460, 230)%Z w1 = Ok w2 /\
    active (drag w2) = false /\
    ball_velocity w2 = vec 0 15 /\
    ball_velocity (handle_event source w2 (MOUSEBUTTONUP 1)) = vec 0 0 /\
    ball_position (handle_event source w2 (MOUSEBUTTONUP 1)) = ball_position w2.
Proof.
  destruct throw_run as (w1 & w2 & H1 & _ & _ & _ & _ & H6 & H7 & H8 & _ & H10 & H11).
  exists w1, w2. repeat split; assumption.
Qed.

(** ** The hexagon after 150 frames of 16 ms *)

Lemma dragging_angle :
  angle dragging_world + ANGULAR_SPEED source * (16 / 1000) = PI / 3.
Proof. cbn. unfold radians. lra. Qed.

Lemma hex_normal_PI3_0 : hex_normal (PI / 3) 0 = vec 0 (-1).
Proof.
  unfold hex_normal. cbv zeta.
  replace (PI / 3 + INR 0 * tau / 6 + PI / 6) with (PI / 2) by (cbn; lra).
  rewrite cos_PI2, sin_PI2. f_equal; lra.
Qed.

Lemma hex_normal_PI3_1 : hex_normal (PI / 3) 1 = vec (sqrt 3 / 2) (- 1 / 2).
Proof.
  rewrite hex_normal_succ, hex_normal_PI3_0, rotate_PI3. cbn [Vector2.x Vector2.y].
  f_equal; lra.
Qed.

Lemma far_from_center (p : V2) (d : R) :
  0 <= d ->
  (Vector2.x p - 450) * (Vector2.x p - 450) + (Vector2.y p - 350) * (Vector2.y p - 350)
  <= d * d ->
  Vector2.length (Vector2.sub p (HEX_CENTER source)) <= d.
Proof.
  intros Hd H. apply length_le; [assumption|].
  rewrite source_center. unfold Vector2.length_squared, Vector2.dot, Vector2.sub.
  cbn [Vector2.x Vector2.y]. exact H.
Qed.

(** Without penetration a pass leaves the store alone, on any vertex list. *)
Lemma resolve_collision_clear (cfg : Config) (b : Ball) (vertices : list V2)
      (a' dt : R) (h : heap) :
  (6 <= length vertices)%nat ->
  (forall i d, (i < 6)%nat ->
     signed_distance cfg vertices i (read h (pos b)) = Some d -> BALL_RADIUS cfg <= d) ->
  resolve_collision cfg b vertices a' dt h = Ok h.
Proof.
  intros Hlen Hd. unfold resolve_collision.
  assert (Hstep : forall i, (i < 6)%nat -> resolve_edge cfg b vertices i h = Ok h).
  { intros i Hi. specialize (Hd i). unfold signed_distance in Hd. unfold resolve_edge.
    unfold index in *.
    destruct (nth_error vertices i) as [a|] eqn:Ea.
    2:{ apply nth_error_None in Ea. lia. }
    destruct (nth_error vertices ((i + 1) mod 6)) as [c|] eqn:Ec.
    2:{ apply nth_error_None in Ec.
        pose proof (Nat.mod_upper_bound (i + 1) 6 ltac:(lia)). lia. }
    cbn [bind]. destruct (edge_normal_total cfg a c) as [o Ho]. rewrite Ho in *.
    cbn [bind]. destruct o as [n|]; [|reflexivity].
    rewrite respond_clear; [reflexivity|]. apply Hd; [assumption | reflexivity]. }
  cbn [seq for_each].
  do 6 (rewrite Hstep by lia; cbn [bind]). reflexivity.
Qed.

Lemma hexagon_vertices_length (c : V2) (r angle : R) :
  length (hexagon_vertices c r angle) = 6%nat.
Proof. reflexivity. Qed.

(** The last step of a tick always returns; it keeps the fields of the
    world and, without penetration, the store. *)
Lemma turn_and_collide_total (cfg : Config) (dt : R) (w : World) :
  exists w',
    turn_and_collide cfg dt w = Ok w' /\
    ball w' = ball w /\ drag w' = drag w /\ running w' = running w /\
    angle w' = angle w + ANGULAR_SPEED cfg * dt /\
    ((forall i d, (i < 6)%nat ->
        signed_distance cfg
          (hexagon_vertices (HEX_CENTER cfg) (HEX_RADIUS cfg)
             (angle w + ANGULAR_SPEED cfg * dt)) i (ball_position w) = Some d ->
        BALL_RADIUS cfg <= d) ->
     mem w' = mem w).
Proof.
  unfold turn_and_collide. cbv zeta.
  destruct (for_each_ok
              (resolve_edge cfg (ball w)
                 (hexagon_vertices (HEX_CENTER cfg) (HEX_RADIUS cfg)
                    (angle w + ANGULAR_SPEED cfg * dt))) (seq 0 6)) with (h := mem w)
    as [h' Hh'].
  { intros i h Hi. apply resolve_edge_ok; [rewrite hexagon_vertices_length; lia|].
    apply in_seq in Hi. lia. }
  unfold resolve_collision. rewrite Hh'. cbn [bind].
  eexists. split; [reflexivity|]. cbn [ball drag running angle mem].
  repeat split. intros Hclear.
  pose proof (resolve_collision_clear cfg (ball w) _ (angle w + ANGULAR_SPEED cfg * dt) dt
                (mem w) ltac:(rewrite hexagon_vertices_length; lia) Hclear) as Hc.
  unfold resolve_collision in Hc. congruence.
Qed.

Lemma read_app_second (h : heap) (u v : V2) (t : heap) :
  read (h ++ u :: v :: t) (S (length h)) = v.
Proof.
  unfold read. rewrite app_nth2 by lia.
  replace (S (length h) - length h)%nat with 1%nat by lia. reflexivity.
Qed.

(** C2, as the program has it: while the ball is held, a tick puts it at
    the mouse position plus the grab offset and skips the integration,
    whatever the gravity; the collision pass still follows, so at the end of
    the tick the ball is at that point when the point is a ball radius or
    more inside every edge of the hexagon. *)
Theorem C2_held_position (cfg : Config) (dt : R) (events : list Event)
        (mouse_pos : Z * Z) (w : World) :
  let w0 := fold_left (handle_event cfg) events w in
  active (drag w0) = true ->
  world_ok w0 ->
  exists w1 w2,
    move_ball cfg dt mouse_pos w0 = Ok w1 /\
    ball_position w1
    = Vector2.add (Vector2_of mouse_pos) (read (mem w0) (grab_offset (drag w0))) /\
    ball_velocity w1 = ball_velocity w0 /\
    loop_body cfg dt events mouse_pos w = Ok w2 /\
    ((forall i d, (i < 6)%nat ->
        signed_distance cfg
          (hexagon_vertices (HEX_CENTER cfg) (HEX_RADIUS cfg)
             (angle w0 + ANGULAR_SPEED cfg * dt)) i (ball_position w1) = Some d ->
        BALL_RADIUS cfg <= d) ->
     ball_position w2
     = Vector2.add (Vector2_of mouse_pos) (read (mem w0) (grab_offset (drag w0))) /\
     ball_velocity w2 = ball_velocity w0).
Proof.
  intros w0 Ha ((Hp & Hv & Hne) & Hg & Hl & Ht & _).
  pose proof (move_ball_held cfg dt mouse_pos w0 Ha Hg Hl) as Hmove.
  match type of Hmove with _ = Ok ?x => set (w1 := x) in * end.
  assert (Hpos : ball_position w1
     = Vector2.add (Vector2_of mouse_pos) (read (mem w0) (grab_offset (drag w0)))).
  { unfold ball_position, w1. cbn [mem ball pos]. apply read_app_second. }
  assert (Hvel : ball_velocity w1 = ball_velocity w0).
  { unfold ball_velocity, w1. cbn [mem ball vel]. apply read_app_old; assumption. }
  destruct (turn_and_collide_total cfg dt w1) as (w2 & Hturn & Hb & _ & _ & _ & Hclear).
  exists w1, w2. repeat split; try assumption.
  - unfold loop_body. fold w0. rewrite Hmove. cbn [bind]. exact Hturn.
  - unfold ball_position. rewrite Hb, Hclear by assumption. exact Hpos.
  - unfold ball_velocity. rewrite Hb, Hclear by assumption. exact Hvel.
Qed.

Lemma dragging_world_ok : world_ok dragging_world.
Proof. unfold world_ok, ball_ok. cbn. repeat split; lia. Qed.

Lemma C2_held_position_witness :
  exists w1,
    move_ball source (1 / 60) (460, 230)%Z dragging_world = Ok w1 /\
    ball_position w1
    = Vector2.add (Vector2_of (460, 230)%Z)
        (read (mem dragging_world) (grab_offset (drag dragging_world))).
Proof.
  destruct (C2_held_position source (1 / 60) [] (460, 230)%Z dragging_world)
    as (w1 & w2 & H1 & H2 & _).
  - reflexivity.
  - apply dragging_world_ok.
  - exists w1. split; assumption.
Defined.

(** The claim C2 as it was stated fails: dragged below the hexagon, the ball
    is not at the mouse position plus the grab offset when the tick ends. *)
Lemma C2_counterexample :
  exists w',
    active (drag dragging_world) = true /\
    loop_body source (16 / 1000) [] (450, 690)%Z dragging_world = Ok w' /\
    ball_position w'
    <> Vector2.add (Vector2_of (450, 690)%Z)
         (read (mem dragging_world) (grab_offset (drag dragging_world))).
Proof.
  pose proof (move_ball_held source (16 / 1000) (450, 690)%Z dragging_world
                eq_refl ltac:(cbn; lia) ltac:(cbn; lia)) as Hmove.
  match type of Hmove with _ = Ok ?x => set (w1 := x) in * end.
  destruct (turn_and_collide_contained source (16 / 1000) w1 source_radius)
    as (w' & Hturn & _ & _ & _ & Hangle & _ & Hd).
  { unfold ball_ok, w1. cbn. lia. }
  { apply Rle_trans with 756; [|pose proof source_slack; lra].
    apply far_from_center; [lra|]. unfold w1. eval_world. nra. }
  exists w'. split; [reflexivity|]. split.
  { unfold loop_body. cbn [fold_left]. rewrite Hmove. cbn [bind]. exact Hturn. }
  intros Heq. destruct (Hd 0%nat ltac:(lia)) as (d & Hsd & Hge).
  rewrite Heq, Hangle in Hsd. unfold w1 in Hsd. cbn [angle] in Hsd.
  rewrite dragging_angle in Hsd.
  rewrite signed_distance_hexagon in Hsd by (try apply source_radius; lia).
  injection Hsd as <-. revert Hge.
  unfold coords. cbn [fst snd edge_coord]. rewrite hex_normal_PI3_0.
  unfold inradius, Vector2.dot, Vector2.sub, Vector2.add.
  cbn. pose proof sqrt3_bounds. intros Hge. lra.
Qed.

(** The position after the last step of a tick, in coordinates. *)
Lemma turn_and_collide_coords (cfg : Config) (dt : R) (w : World) :
  0 < HEX_RADIUS cfg ->
  ball_ok (ball w) (mem w) ->
  exists w',
    turn_and_collide cfg dt w = Ok w' /\
    angle w' = angle w + ANGULAR_SPEED cfg * dt /\
    coords cfg (angle w') (ball_position w')
    = fold_left (fun ab j => coord_push (slack cfg) j ab) (seq 0 6)
        (coords cfg (angle w') (ball_position w)) /\
    forall i, (i < 6)%nat ->
      signed_distance cfg
        (hexagon_vertices (HEX_CENTER cfg) (HEX_RADIUS cfg) (angle w')) i
        (ball_position w')
      = Some (edge_coord i (fst (coords cfg (angle w') (ball_position w')))
                           (snd (coords cfg (angle w') (ball_position w')))
              + inradius cfg).
Proof.
  intros Hr Hok. unfold turn_and_collide. cbv zeta.
  rewrite resolve_collision_hexagon by assumption. cbn [bind].
  eexists. split; [reflexivity|]. cbn [angle]. split; [reflexivity|].
  unfold ball_position. cbn [mem ball].
  destruct (fold_respond_pos cfg (angle w + ANGULAR_SPEED cfg * dt) (ball w) (seq 0 6)
              (mem w) Hok) as [_ ->].
  split.
  - apply fold_push_coords. apply seq_0_6_bound.
  - intros i Hi. apply signed_distance_hexagon; assumption.
Qed.

Lemma source_slack_eq : slack source = 120 * sqrt 3 - 18.
Proof. unfold slack, inradius. cbn. lra. Qed.

(** The pass on a ball dragged to (1300, 560) when the hexagon has turned by
    60 degrees: edges 0, 4 and 5 push, and the last push undoes the first. *)
Lemma far_pass (k : R) :
  1732 / 1000 < k < 17321 / 10000 ->
  fst (fold_left (fun ab j => coord_push (120 * k - 18) j ab) (seq 0 6)
         (-210, 425 * k - 105)) + 120 * k < 1.
Proof.
  intros Hk. cbn [seq fold_left].
  destruct (coord_push_cases (120 * k - 18) 0 (-210) (425 * k - 105))
    as [[H0 E0]|[H0 E0]]; rewrite E0; clear E0; cbn [edge_coord] in H0; [lra|].
  match goal with |- context [coord_push _ 1 (?x, ?y)] =>
    destruct (coord_push_cases (120 * k - 18) 1 x y) as [[H1 E1]|[H1 E1]]; rewrite E1;
    clear E1; cbn [edge_coord] in H1; [|lra] end.
  match goal with |- context [coord_push _ 2 (?x, ?y)] =>
    destruct (coord_push_cases (120 * k - 18) 2 x y) as [[H2 E2]|[H2 E2]]; rewrite E2;
    clear E2; cbn [edge_coord] in H2; [|lra] end.
  match goal with |- context [coord_push _ 3 (?x, ?y)] =>
    destruct (coord_push_cases (120 * k - 18) 3 x y) as [[H3 E3]|[H3 E3]]; rewrite E3;
    clear E3; cbn [edge_coord] in H3; [|lra] end.
  match goal with |- context [coord_push _ 4 (?x, ?y)] =>
    destruct (coord_push_cases (120 * k - 18) 4 x y) as [[H4 E4]|[H4 E4]]; rewrite E4;
    clear E4; cbn [edge_coord] in H4; [lra|] end.
  match goal with |- context [coord_push _ 5 (?x, ?y)] =>
    destruct (coord_push_cases (120 * k - 18) 5 x y) as [[H5 E5]|[H5 E5]]; rewrite E5;
    clear E5; cbn [edge_coord] in H5; [lra|] end.
  cbn [fst edge_coord]. lra.
Qed.

(** C3, as the program has it: one pass over the edges leaves the ball a
    ball radius or more inside every edge of the current hexagon when the
    ball entered the pass no farther from the centre than four times the
    room between a centred ball and an edge.  (With the constants of the
    program this is 759 pixels, which covers the window.) *)
Theorem C3_contained (cfg : Config) (dt : R) (events : list Event) (mouse_pos : Z * Z)
        (w w1 : World) :
  0 < HEX_RADIUS cfg ->
  move_ball cfg dt mouse_pos (fold_left (handle_event cfg) events w) = Ok w1 ->
  ball_ok (ball w1) (mem w1) ->
  Vector2.length (Vector2.sub (ball_position w1) (HEX_CENTER cfg)) <= 4 * slack cfg ->
  exists w',
    loop_body cfg dt events mouse_pos w = Ok w' /\
    forall i, (i < 6)%nat ->
      exists d,
        signed_distance cfg
          (hexagon_vertices (HEX_CENTER cfg) (HEX_RADIUS cfg) (angle w')) i
          (ball_position w') = Some d /\
        BALL_RADIUS cfg <= d.
Proof.
  intros Hr Hmove Hok Hlen.
  destruct (turn_and_collide_contained cfg dt w1 Hr Hok Hlen)
    as (w' & Hturn & _ & _ & _ & _ & _ & Hd).
  exists w'. split; [|exact Hd].
  unfold loop_body. rewrite Hmove. cbn [bind]. exact Hturn.
Qed.

Lemma C3_contained_witness :
  exists w',
    loop_body source (1 / 60) [] (0, 0)%Z initial_world = Ok w' /\
    forall i, (i < 6)%nat ->
      exists d,
        signed_distance source
          (hexagon_vertices (HEX_CENTER source) (HEX_RADIUS source) (angle w')) i
          (ball_position w') = Some d /\
        BALL_RADIUS source <= d.
Proof.
  refine (C3_contained source (1 / 60) [] (0, 0)%Z initial_world _ source_radius
            (move_ball_free source (1 / 60) (0, 0)%Z initial_world eq_refl source_mass) _ _).
  - unfold ball_ok. cbn. lia.
  - apply Rle_trans with 189; [|pose proof source_slack; lra].
    apply far_from_center; [lra|]. eval_world. nra.
Defined.

(** The claim C3 as it was stated fails: dragged far to the lower right of
    the hexagon, the ball ends the tick with its centre less than a pixel
    inside edge 0, seventeen pixels short of the ball radius. *)
Lemma C3_counterexample :
  exists w' d,
    loop_body source (16 / 1000) [] (1300, 560)%Z dragging_world = Ok w' /\
    signed_distance source
      (hexagon_vertices (HEX_CENTER source) (HEX_RADIUS source) (angle w')) 0
      (ball_position w') = Some d /\
    d < BALL_RADIUS source - 17.
Proof.
  pose proof (move_ball_held source (16 / 1000) (1300, 560)%Z dragging_world
                eq_refl ltac:(cbn; lia) ltac:(cbn; lia)) as Hmove.
  match type of Hmove with _ = Ok ?x => set (w1 := x) in * end.
  destruct (turn_and_collide_coords source (16 / 1000) w1 source_radius)
    as (w' & Hturn & Hangle & Hcoords & Hsd).
  { unfold ball_ok, w1. cbn. lia. }
  exists w'. eexists. split.
  { unfold loop_body. cbn [fold_left]. rewrite Hmove. cbn [bind]. exact Hturn. }
  split; [apply Hsd; lia|].
  rewrite Hcoords. cbn [edge_coord].
  assert (Ha : angle w' = PI / 3).
  { rewrite Hangle. unfold w1. cbn [angle]. apply dragging_angle. }
  rewrite Ha.
  assert (Hstart : coords source (PI / 3) (ball_position w1)
                   = (-210, 425 * sqrt 3 - 105)).
  { unfold coords. rewrite hex_normal_PI3_0, hex_normal_PI3_1.
    unfold w1, Vector2.dot, Vector2.sub. eval_world. f_equal; lra. }
  rewrite Hstart, source_slack_eq.
  pose proof (far_pass (sqrt 3) sqrt3_bounds) as Hfar.
  unfold inradius. cbn [HEX_RADIUS BALL_RADIUS source]. lra.
Qed.

(** * Further properties of the program *)

(** ** What a pass may touch *)

Lemma resolve_edge_frame (cfg : Config) (b : Ball) (vertices : list V2) (i : nat)
      (h h' : heap) :
  resolve_edge cfg b vertices i h = Ok h' ->
  length h' = length h /\
  forall l, l <> pos b -> l <> vel b -> read h' l = read h l.
Proof.
  unfold resolve_edge.
  destruct (index vertices i) as [a|e]; cbn [bind]; [|discriminate].
  destruct (index vertices ((i + 1) mod 6)) as [c|e]; cbn [bind]; [|discriminate].
  destruct (edge_normal cfg a c) as [[n|]|e]; cbn [bind]; try discriminate.
  - intros [= <-]. split; [apply respond_length|].
    intros l Hp Hv. apply respond_frame; assumption.
  - intros [= <-]. split; reflexivity.
Qed.

Lemma for_each_frame (cfg : Config) (b : Ball) (vertices : list V2) (range : list nat) :
  forall h h',
    for_each (resolve_edge cfg b vertices) range h = Ok h' ->
    length h' = length h /\
    forall l, l <> pos b -> l <> vel b -> read h' l = read h l.
Proof.
  induction range as [|i range IH]; intros h h'; cbn [for_each].
  - intros [= <-]. split; reflexivity.
  - destruct (resolve_edge cfg b vertices i h) as [h1|e] eqn:E; cbn [bind]; [|discriminate].
    intros Hrest. destruct (resolve_edge_frame _ _ _ _ _ _ E) as [Hl1 Hf1].
    destruct (IH _ _ Hrest) as [Hl2 Hf2]. split; [congruence|].
    intros l Hp Hv. rewrite Hf2, Hf1 by assumption. reflexivity.
Qed.

(** X4: collision resolution allocates nothing and writes to no object but
    the ball's position and velocity, on every vertex list. *)
Theorem resolve_collision_frame (cfg : Config) (b : Ball) (vertices : list V2)
        (angle dt : R) (h h' : heap) :
  resolve_collision cfg b vertices angle dt h = Ok h' ->
  length h' = length h /\
  forall l, l <> pos b -> l <> vel b -> read h' l = read h l.
Proof. apply for_each_frame. Qed.

Lemma resolve_collision_frame_witness :
  length (mem initial_world) = length (mem initial_world) /\
  forall l, l <> pos (ball initial_world) -> l <> vel (ball initial_world) ->
            read (mem initial_world) l = read (mem initial_world) l.
Proof.
  apply (resolve_collision_frame source (ball initial_world)
           (hexagon_vertices (HEX_CENTER source) (HEX_RADIUS source) 0) 0 0
           (mem initial_world) (mem initial_world)).
  apply hexagon_pass_clear; [apply source_radius|].
  apply near_center. eval_world. nra.
Defined.

(** ** Well-formed worlds *)

Lemma write_world_ok (w : World) (h : heap) (b : Ball) (d : DragState) (a : R)
      (r : bool) :
  world_ok w -> length h = length (mem w) ->
  pos b = pos (ball w) ->
  (vel b = vel (ball w) \/ vel b = throw_vel (drag w)) ->
  grab_offset d = grab_offset (drag w) ->
  last_mouse d = last_mouse (drag w) ->
  throw_vel d = throw_vel (drag w) ->
  world_ok {| mem := h; ball := b; drag := d; angle := a; running := r |}.
Proof.
  intros ((Hp & Hv & Hne) & Hg & Hl & Ht & H1 & H2 & H3 & H4) Hlen Ep Ev Eg El Et.
  unfold world_ok, ball_ok. cbn [mem ball drag].
  rewrite Hlen, Ep, Eg, El, Et.
  destruct Ev as [-> | ->]; repeat split; auto.
Qed.

Lemma handle_event_ok (cfg : Config) (w : World) (e : Event) :
  world_ok w -> world_ok (handle_event cfg w e).
Proof.
  intros Hok. pose proof Hok as ((Hp & Hv & Hne) & Hg & Hl & Ht & H1 & H2 & H3 & H4).
  destruct e as [|key|button position|button|]; cbn [handle_event]; try assumption.
  - destruct (Z.eqb key K_ESCAPE); assumption.
  - destruct (Z.eqb button 1); [|assumption]. unfold alloc.
    destruct (Rle_dec _ _).
    + unfold world_ok, ball_ok. cbn [mem ball drag active grab_offset last_mouse throw_vel].
      rewrite write_length, !length_app. cbn [length].
      repeat split; lia.
    + unfold world_ok, ball_ok. cbn [mem ball drag]. rewrite length_app. cbn [length].
      repeat split; auto; lia.
  - destruct (Z.eqb button 1); [|assumption]. unfold reset.
    apply (write_world_ok w); auto.
    + rewrite !write_length. reflexivity.
    + destruct (active (drag w)); reflexivity.
    + destruct (active (drag w)); cbn [vel]; auto.
Qed.

Lemma events_ok (cfg : Config) (events : list Event) (w : World) :
  world_ok w -> world_ok (fold_left (handle_event cfg) events w).
Proof.
  revert w. induction events as [|e events IH]; intros w Hok; cbn [fold_left]; auto.
  apply IH, handle_event_ok, Hok.
Qed.

Lemma move_ball_ok (cfg : Config) (dt : R) (mouse_pos : Z * Z) (w w' : World) :
  world_ok w -> move_ball cfg dt mouse_pos w = Ok w' -> world_ok w'.
Proof.
  intros Hok. pose proof Hok as ((Hp & Hv & Hne) & Hg & Hl & Ht & H1 & H2 & H3 & H4).
  destruct (active (drag w)) eqn:Ha.
  - rewrite move_ball_held by assumption. intros [= <-].
    unfold world_ok, ball_ok. cbn [mem ball drag pos vel grab_offset last_mouse throw_vel].
    rewrite length_app. cbn [length]. repeat split; lia.
  - unfold move_ball, apply_force. rewrite Ha.
    destruct (vdiv _ _) as [a|e]; cbn [bind]; [|discriminate].
    intros [= <-]. apply (write_world_ok w); auto.
    unfold integrate. rewrite !write_length. reflexivity.
Qed.

Lemma turn_and_collide_ok (cfg : Config) (dt : R) (w w' : World) :
  world_ok w -> turn_and_collide cfg dt w = Ok w' -> world_ok w'.
Proof.
  intros Hok. unfold turn_and_collide. cbv zeta.
  destruct (resolve_collision _ _ _ _ _ _) as [h|e] eqn:E; cbn [bind]; [|discriminate].
  intros [= <-]. apply (write_world_ok w); auto.
  unfold resolve_collision in E. apply (for_each_frame _ _ _ _ _ _ E).
Qed.

(** X1: the fields of the running program always point to objects of the
    store, and the ball's position and the grab offset are never shared with
    another field: this holds at the start and is kept by every event and by
    every tick. *)
Theorem world_ok_invariant :
  world_ok initial_world /\
  (forall cfg w e, world_ok w -> world_ok (handle_event cfg w e)) /\
  (forall cfg dt events mouse_pos w w',
     world_ok w -> loop_body cfg dt events mouse_pos w = Ok w' -> world_ok w').
Proof.
  split; [|split].
  - unfold world_ok, ball_ok. cbn. repeat split; lia.
  - apply handle_event_ok.
  - intros cfg dt events mouse_pos w w' Hok. unfold loop_body.
    destruct (move_ball _ _ _ _) as [w1|e] eqn:E; cbn [bind]; [|discriminate].
    apply turn_and_collide_ok. eapply move_ball_ok; [|exact E].
    apply events_ok, Hok.
Qed.

Lemma world_ok_invariant_witness :
  world_ok (handle_event source initial_world (MOUSEBUTTONDOWN 1 (450, 230)%Z)).
Proof.
  apply (proj1 (proj2 world_ok_invariant) source initial_world).
  apply (proj1 world_ok_invariant).
Defined.

(** X2: a tick never raises: whatever the time step (zero and negative
    ones too, since the throw velocity divides by [max(dt, 1e-6)]), the
    events and the mouse position, [loop_body] returns a world, as long as
    [BALL_MASS] is not zero. *)
Theorem loop_body_total (cfg : Config) (dt : R) (events : list Event)
        (mouse_pos : Z * Z) (w : World) :
  BALL_MASS cfg <> 0 ->
  exists w', loop_body cfg dt events mouse_pos w = Ok w'.
Proof.
  intros Hm. unfold loop_body.
  set (w0 := fold_left (handle_event cfg) events w).
  assert (Hmove : exists w1, move_ball cfg dt mouse_pos w0 = Ok w1).
  { destruct (active (drag w0)) eqn:Ha.
    - unfold move_ball, alloc, vdiv. rewrite Ha.
      pose proof (py_max_pos dt). destruct (Req_dec_T _ 0); [lra|].
      cbn [bind]. eexists; reflexivity.
    - rewrite move_ball_free by assumption. eexists; reflexivity. }
  destruct Hmove as [w1 ->]. cbn [bind].
  destruct (turn_and_collide_total cfg dt w1) as (w' & H & _). exists w'. exact H.
Qed.

Lemma loop_body_total_witness :
  exists w', loop_body source 0 [MOUSEBUTTONDOWN 1 (450, 230)%Z] (0, 0)%Z initial_world = Ok w'.
Proof.
  apply (loop_body_total source 0 [MOUSEBUTTONDOWN 1 (450, 230)%Z] (0, 0)%Z initial_world).
  cbn. lra.
Defined.

(** ** The response to one edge, in detail *)

Lemma push_distance (cfg : Config) (a n p : V2) :
  Vector2.dot n n = 1 ->
  (Vector2.dot (Vector2.sub p a) n < BALL_RADIUS cfg ->
   Vector2.dot (Vector2.sub (push cfg a n p) a) n = BALL_RADIUS cfg) /\
  (BALL_RADIUS cfg <= Vector2.dot (Vector2.sub p a) n -> push cfg a n p = p).
Proof.
  intros Hn. unfold push. cbv zeta.
  destruct (Rgt_dec _ 0) as [Hgt|Hle]; split; intros Hd; try lra; try reflexivity.
  rewrite dot_after_push, Hn. lra.
Qed.

Lemma resolve_edge_some (cfg : Config) (ball : Ball) (vertices : list V2) (i : nat)
      (h : heap) (a b n : V2) :
  index vertices i = Ok a ->
  index vertices ((i + 1) mod 6) = Ok b ->
  edge_normal cfg a b = Ok (Some n) ->
  resolve_edge cfg ball vertices i h = Ok (respond cfg ball a n h).
Proof.
  intros Ha Hb Hn. unfold resolve_edge. rewrite Ha, Hb. cbn [bind]. rewrite Hn. reflexivity.
Qed.

(** X3: the positional correction.  When the ball is less than a ball radius
    from an edge, the response to that edge leaves the ball's centre at
    exactly [BALL_RADIUS] from it; otherwise the response changes nothing at
    all, velocity included. *)
Theorem correction_makes_tangent (cfg : Config) (ball : Ball) (vertices : list V2)
        (i : nat) (h : heap) (a b n : V2) :
  ball_ok ball h ->
  index vertices i = Ok a ->
  index vertices ((i + 1) mod 6) = Ok b ->
  edge_normal cfg a b = Ok (Some n) ->
  exists h',
    resolve_edge cfg ball vertices i h = Ok h' /\
    (Vector2.dot (Vector2.sub (read h (pos ball)) a) n < BALL_RADIUS cfg ->
     Vector2.dot (Vector2.sub (read h' (pos ball)) a) n = BALL_RADIUS cfg) /\
    (BALL_RADIUS cfg <= Vector2.dot (Vector2.sub (read h (pos ball)) a) n -> h' = h).
Proof.
  intros Hok Ha Hb Hn. exists (respond cfg ball a n h).
  split; [apply (resolve_edge_some cfg ball vertices i h a b n); assumption|].
  destruct (edge_normal_spec cfg a b n Hn) as [Hunit _].
  split.
  - intros Hd. rewrite respond_pos by assumption.
    apply (push_distance cfg a n _ Hunit); assumption.
  - apply respond_clear.
Qed.

Lemma example_edge_normal : edge_normal stationary (vec 0 0) (vec 1 0) = Ok (Some (vec 0 1)).
Proof.
  unfold edge_normal. cbv zeta.
  replace (vec (- Vector2.y (Vector2.sub (vec 1 0) (vec 0 0)))
               (Vector2.x (Vector2.sub (vec 1 0) (vec 0 0))))
    with (vec (1 * 0) (1 * 1)) by (apply vec_eq; simpl; lra).
  destruct (Req_dec_T _ 0) as [E|_].
  { exfalso. unfold Vector2.length_squared, Vector2.dot in E. simpl in E. lra. }
  rewrite normalize_scaled by lra. cbn [bind].
  destruct (Rlt_dec _ 0) as [Hlt|_]; [exfalso | reflexivity].
  unfold Vector2.dot, Vector2.sub, Vector2.add, Vector2.scale in Hlt. cbn in Hlt. lra.
Qed.

Lemma correction_makes_tangent_witness :
  exists h',
    resolve_edge stationary {| pos := 0%nat; vel := 1%nat |} [vec 0 0; vec 1 0] 0
      [vec 0 10; vec 5 (-100)] = Ok h' /\
    Vector2.dot (Vector2.sub (read h' 0%nat) (vec 0 0)) (vec 0 1) = BALL_RADIUS stationary.
Proof.
  destruct (correction_makes_tangent stationary {| pos := 0%nat; vel := 1%nat |}
              [vec 0 0; vec 1 0] 0 [vec 0 10; vec 5 (-100)] (vec 0 0) (vec 1 0) (vec 0 1))
    as (h' & Hh & Ht & _).
  - unfold ball_ok. simpl. lia.
  - reflexivity.
  - reflexivity.
  - exact example_edge_normal.
  - exists h'. split; [exact Hh|]. apply Ht.
    unfold Vector2.dot, Vector2.sub. cbn. lra.
Defined.

Lemma for_each_ball_ok (cfg : Config) (b : Ball) (vertices : list V2) (range : list nat)
      (h h' : heap) :
  ball_ok b h ->
  for_each (resolve_edge cfg b vertices) range h = Ok h' ->
  ball_ok b h'.
Proof.
  intros (Hp & Hv & Hne) H. destruct (for_each_frame _ _ _ _ _ _ H) as [Hl _].
  unfold ball_ok. rewrite Hl. auto.
Qed.

(** X5: the last edge of a pass is always respected.  On every list of six
    vertices and wherever the ball is, after [resolve_collision] the ball's
    centre is at least [BALL_RADIUS] from the line of edge 5 (when that edge
    is not degenerate). *)
Theorem last_edge_respected (cfg : Config) (b : Ball) (vertices : list V2)
        (angle dt : R) (h h' : heap) (d : R) :
  ball_ok b h ->
  resolve_collision cfg b vertices angle dt h = Ok h' ->
  signed_distance cfg vertices 5 (read h' (pos b)) = Some d ->
  BALL_RADIUS cfg <= d.
Proof.
  intros Hok Hres Hsd. unfold resolve_collision in Hres.
  change (seq 0 6) with (seq 0 5 ++ [5%nat]) in Hres.
  assert (Hsplit : forall l1 l2 h0 h2,
            for_each (resolve_edge cfg b vertices) (l1 ++ l2) h0 = Ok h2 ->
            exists h1, for_each (resolve_edge cfg b vertices) l1 h0 = Ok h1 /\
                       for_each (resolve_edge cfg b vertices) l2 h1 = Ok h2).
  { induction l1 as [|i l1 IH]; intros l2 h0 h2; cbn [app for_each].
    - intros H. exists h0. split; [reflexivity | exact H].
    - destruct (resolve_edge cfg b vertices i h0) as [hx|e]; cbn [bind]; [|discriminate].
      apply IH. }
  destruct (Hsplit _ _ _ _ Hres) as (h5 & H05 & Hlast).
  pose proof (for_each_ball_ok _ _ _ _ _ _ Hok H05) as Hok5.
  cbn [for_each] in Hlast.
  unfold signed_distance in Hsd.
  destruct (index vertices 5) as [a|] eqn:Ea; [|discriminate].
  destruct (index vertices ((5 + 1) mod 6)) as [c|] eqn:Ec; [|discriminate].
  destruct (edge_normal cfg a c) as [[n|]|] eqn:En; try discriminate.
  injection Hsd as <-.
  rewrite (resolve_edge_some cfg b vertices 5 h5 a c n Ea Ec En) in Hlast.
  cbn [bind] in Hlast. injection Hlast as <-.
  rewrite respond_pos by assumption.
  destruct (edge_normal_spec cfg a c n En) as [Hunit _].
  destruct (push_distance cfg a n (read h5 (pos b)) Hunit) as [Hlt Hge].
  destruct (Rlt_dec (Vector2.dot (Vector2.sub (read h5 (pos b)) a) n) (BALL_RADIUS cfg))
    as [Hd|Hd].
  - rewrite Hlt by assumption. lra.
  - rewrite Hge by lra. lra.
Qed.

Lemma last_edge_respected_witness :
  BALL_RADIUS source
  <= edge_coord 5 (fst (coords source 0 (read (mem initial_world) (pos (ball initial_world)))))
                  (snd (coords source 0 (read (mem initial_world) (pos (ball initial_world)))))
     + inradius source.
Proof.
  apply (last_edge_respected source (ball initial_world)
           (hexagon_vertices (HEX_CENTER source) (HEX_RADIUS source) 0) 0 0
           (mem initial_world) (mem initial_world)).
  - unfold ball_ok. cbn. lia.
  - apply hexagon_pass_clear; [apply source_radius|].
    apply near_center. eval_world. nra.
  - apply signed_distance_hexagon; [apply source_radius | lia].
Defined.

Lemma respond_velocity (cfg : Config) (ball : Ball) (a n : V2) (h : heap) :
  ball_ok ball h ->
  let p := read h (pos ball) in
  let v := read h (vel ball) in
  let penetration := BALL_RADIUS cfg - Vector2.dot (Vector2.sub p a) n in
  let rel := Vector2.sub v (wall_velocity cfg (Vector2.add p (Vector2.scale n penetration))) in
  let vn := Vector2.dot rel n in
  let tangent := vec (- Vector2.y n) (Vector2.x n) in
  penetration > 0 -> vn < 0 ->
  read (respond cfg ball a n h) (vel ball)
  = Vector2.add (Vector2.sub v (Vector2.scale n ((1 + RESTITUTION cfg) * vn)))
                (Vector2.scale tangent (- Vector2.dot rel tangent * FRICTION cfg)).
Proof.
  intros (Hp & Hv & Hne) p v penetration rel vn tangent Hpen Hvn.
  unfold respond. cbv zeta. fold p. fold penetration.
  destruct (Rgt_dec penetration 0) as [_|C]; [|contradiction].
  rewrite (read_write_same h (pos ball)) by assumption.
  rewrite (read_write_other h (pos ball) (vel ball)) by assumption.
  fold v. fold rel. fold vn.
  destruct (Rlt_dec vn 0) as [_|C]; [|contradiction].
  rewrite read_write_same by (rewrite !write_length; assumption).
  rewrite read_write_same by (rewrite write_length; assumption).
  reflexivity.
Qed.

(** X6: the bounce law of a response.  When the ball penetrates an edge
    while it approaches the wall ([vn < 0]), then, relative to the wall at
    the corrected contact point, the normal component of the ball's velocity
    becomes [- RESTITUTION * vn] and the tangential component is scaled by
    [1 - FRICTION]. *)
Theorem bounce_law (cfg : Config) (ball : Ball) (vertices : list V2) (i : nat)
        (h : heap) (a b n : V2) :
  ball_ok ball h ->
  index vertices i = Ok a ->
  index vertices ((i + 1) mod 6) = Ok b ->
  edge_normal cfg a b = Ok (Some n) ->
  let p := read h (pos ball) in
  let v := read h (vel ball) in
  let penetration := BALL_RADIUS cfg - Vector2.dot (Vector2.sub p a) n in
  let wall := wall_velocity cfg (Vector2.add p (Vector2.scale n penetration)) in
  let tangent := vec (- Vector2.y n) (Vector2.x n) in
  penetration > 0 ->
  Vector2.dot (Vector2.sub v wall) n < 0 ->
  exists h',
    resolve_edge cfg ball vertices i h = Ok h' /\
    Vector2.dot (Vector2.sub (read h' (vel ball)) wall) n
    = - RESTITUTION cfg * Vector2.dot (Vector2.sub v wall) n /\
    Vector2.dot (Vector2.sub (read h' (vel ball)) wall) tangent
    = (1 - FRICTION cfg) * Vector2.dot (Vector2.sub v wall) tangent.
Proof.
  intros Hok Ha Hb Hn p v penetration wall tangent Hpen Hvn.
  exists (respond cfg ball a n h).
  split; [apply (resolve_edge_some cfg ball vertices i h a b n); assumption|].
  rewrite (respond_velocity cfg ball a n h Hok Hpen Hvn).
  fold p v penetration wall tangent.
  destruct (edge_normal_spec cfg a b n Hn) as [Hunit _].
  clearbody v wall. clear Hvn Hpen.
  set (e := RESTITUTION cfg). set (mu := FRICTION cfg).
  unfold tangent, Vector2.dot, Vector2.add, Vector2.sub, Vector2.scale in *.
  cbn [Vector2.x Vector2.y] in *.
  destruct n as [nx ny], v as [vx vy], wall as [wx wy].
  cbn [Vector2.x Vector2.y] in *.
  assert (Hn2 : nx * nx = 1 - ny * ny) by lra.
  split; field [Hn2].
Qed.

Lemma bounce_law_witness :
  exists h',
    resolve_edge stationary {| pos := 0%nat; vel := 1%nat |} [vec 0 0; vec 1 0] 0
      [vec 0 10; vec 5 (-100)] = Ok h'.
Proof.
  destruct (bounce_law stationary {| pos := 0%nat; vel := 1%nat |} [vec 0 0; vec 1 0] 0
              [vec 0 10; vec 5 (-100)] (vec 0 0) (vec 1 0) (vec 0 1))
    as (h' & Hh & _).
  - unfold ball_ok. simpl. lia.
  - reflexivity.
  - reflexivity.
  - exact example_edge_normal.
  - unfold Vector2.dot, Vector2.sub. cbn. lra.
  - unfold wall_velocity, Vector2.dot, Vector2.sub, Vector2.add, Vector2.scale. cbn. lra.
  - exists h'. exact Hh.
Defined.

(** ** Mouse events *)

(** X7: a press of the left button grabs the ball exactly when it lands
    within [BALL_RADIUS + 4] of the ball's centre.  A hit records the offset
    from the mouse to the ball and the mouse position, and zeroes the throw
    velocity; a miss leaves the drag state as it was; neither moves the
    ball.  Presses of other buttons change nothing. *)
Theorem press_grabs_within_reach (cfg : Config) (w : World) (p : Z * Z) :
  world_ok w ->
  let w' := handle_event cfg w (MOUSEBUTTONDOWN 1 p) in
  (Vector2.length (Vector2.sub (Vector2_of p) (ball_position w)) <= BALL_RADIUS cfg + 4 ->
   active (drag w') = true /\
   read (mem w') (grab_offset (drag w')) = Vector2.sub (ball_position w) (Vector2_of p) /\
   read (mem w') (last_mouse (drag w')) = Vector2_of p /\
   read (mem w') (throw_vel (drag w')) = vec 0 0) /\
  (Vector2.length (Vector2.sub (Vector2_of p) (ball_position w)) > BALL_RADIUS cfg + 4 ->
   drag w' = drag w /\ ball_velocity w' = ball_velocity w) /\
  ball w' = ball w /\
  ball_position w' = ball_position w /\
  (forall button, button <> 1%Z -> handle_event cfg w (MOUSEBUTTONDOWN button p) = w).
Proof.
  intros ((Hp & Hv & Hne) & Hg & Hl & Ht & H1 & H2 & H3 & H4). cbv zeta.
  cbn [handle_event]. change (Z.eqb 1 1) with true. cbv iota. unfold alloc.
  rewrite read_app_new, (read_app_old (mem w)) by assumption.
  fold (ball_position w).
  assert (Hlen1 : length (mem w ++ [Vector2_of p]) = S (length (mem w)))
    by (rewrite length_app; cbn; lia).
  destruct (Rle_dec _ _) as [Hle|Hgt].
  - cbn [mem ball drag active grab_offset last_mouse throw_vel].
    split; [intros _|split; [intros C; lra|]].
    + split; [reflexivity|]. split; [|split].
      * rewrite read_write_other by (rewrite Hlen1; lia). apply read_app_new.
      * rewrite read_write_other by lia.
        rewrite read_app_old by (rewrite Hlen1; lia). apply read_app_new.
      * apply read_write_same. rewrite !length_app. cbn. lia.
    + split; [reflexivity|]. split; [|intros button Hb; apply Z.eqb_neq in Hb; rewrite Hb; reflexivity].
      unfold ball_position. cbn [mem ball]. rewrite read_write_other by congruence.
      rewrite !read_app_old by (rewrite ?Hlen1; lia). reflexivity.
  - cbn [mem ball drag].
    split; [intros C; lra|]. split; [intros _|].
    + split; [reflexivity|].
      unfold ball_velocity. cbn [mem ball]. apply read_app_old; assumption.
    + split; [reflexivity|]. split; [|intros button Hb; apply Z.eqb_neq in Hb; rewrite Hb; reflexivity].
      unfold ball_position. cbn [mem ball]. apply read_app_old; assumption.
Qed.

Lemma initial_world_ok : world_ok initial_world.
Proof. unfold world_ok, ball_ok. cbn. repeat split; lia. Qed.

Lemma press_grabs_within_reach_witness :
  ball_position (handle_event source initial_world (MOUSEBUTTONDOWN 1 (450, 230)%Z))
  = ball_position initial_world.
Proof.
  apply (press_grabs_within_reach source initial_world (450, 230)%Z initial_world_ok).
Defined.

Lemma read_app_first (h : heap) (u : V2) (t : heap) : read (h ++ u :: t) (length h) = u.
Proof. unfold read. rewrite app_nth2, Nat.sub_diag; [reflexivity | lia]. Qed.

(** X8: the throw velocity of a held tick is the mouse displacement since
    the last tick divided by [max(dt, 1e-6)]: by [dt] itself for a time step
    of at least a microsecond, and by [1e-6] below that, a zero or negative
    time step included; the tick also records the mouse position and keeps
    the grab offset. *)
Theorem held_tick_throw_velocity (cfg : Config) (dt : R) (mouse_pos : Z * Z) (w : World) :
  active (drag w) = true ->
  world_ok w ->
  exists w1,
    move_ball cfg dt mouse_pos w = Ok w1 /\
    active (drag w1) = true /\
    read (mem w1) (last_mouse (drag w1)) = Vector2_of mouse_pos /\
    read (mem w1) (grab_offset (drag w1)) = read (mem w) (grab_offset (drag w)) /\
    (1 / 1000000 <= dt ->
     Vector2.scale (read (mem w1) (throw_vel (drag w1))) dt
     = Vector2.sub (Vector2_of mouse_pos) (read (mem w) (last_mouse (drag w)))) /\
    (dt <= 1 / 1000000 ->
     read (mem w1) (throw_vel (drag w1))
     = Vector2.scale (Vector2.sub (Vector2_of mouse_pos) (read (mem w) (last_mouse (drag w))))
         1000000).
Proof.
  intros Ha ((Hp & Hv & Hne) & Hg & Hl & Ht & _).
  rewrite move_ball_held by assumption. eexists. split; [reflexivity|].
  cbn [mem drag active last_mouse grab_offset throw_vel].
  split; [reflexivity|]. split; [apply read_app_first|].
  split; [apply read_app_old; assumption|].
  assert (Htv : forall u v t, read (mem w ++ [u; v; t]) (S (S (length (mem w)))) = t).
  { intros u v t. unfold read. rewrite app_nth2 by lia.
    replace (S (S (length (mem w))) - length (mem w))%nat with 2%nat by lia. reflexivity. }
  rewrite Htv. unfold py_max.
  split; intros Hdt; destruct (Rgt_dec _ dt) as [Hgt|Hngt];
    apply vec_eq; unfold Vector2.scale; cbn [Vector2.x Vector2.y];
    try (field; lra); try lra.
  - assert (dt = 1 / 1000000) by lra. subst dt. field.
  - assert (dt = 1 / 1000000) by lra. subst dt. field.
Qed.

Lemma held_tick_throw_velocity_witness :
  exists w1, move_ball source (1 / 60) (460, 230)%Z dragging_world = Ok w1 /\
             active (drag w1) = true.
Proof.
  destruct (held_tick_throw_velocity source (1 / 60) (460, 230)%Z dragging_world
              eq_refl dragging_world_ok) as (w1 & H1 & H2 & _).
  exists w1. split; assumption.
Defined.

(** X9: a release of the left button.  The drag state becomes inactive with
    a zero grab offset and a zero throw velocity, and the ball stays where
    it is.  When the ball was held, its velocity becomes the throw-velocity
    object, which the reset has just zeroed; when nothing was held, the
    velocity is kept unless it is that same object (as it is after an
    earlier release), in which case it is zeroed too.  Releases of other
    buttons change nothing. *)
Theorem release_resets_drag (cfg : Config) (w : World) :
  world_ok w ->
  let w' := handle_event cfg w (MOUSEBUTTONUP 1) in
  active (drag w') = false /\
  read (mem w') (grab_offset (drag w')) = vec 0 0 /\
  read (mem w') (throw_vel (drag w')) = vec 0 0 /\
  ball_position w' = ball_position w /\
  (active (drag w) = true ->
   vel (ball w') = throw_vel (drag w') /\ ball_velocity w' = vec 0 0) /\
  (active (drag w) = false -> vel (ball w) <> throw_vel (drag w) ->
   ball_velocity w' = ball_velocity w) /\
  (active (drag w) = false -> vel (ball w) = throw_vel (drag w) ->
   ball_velocity w' = vec 0 0) /\
  (forall button, button <> 1%Z -> handle_event cfg w (MOUSEBUTTONUP button) = w).
Proof.
  intros ((Hp & Hv & Hne) & Hg & Hl & Ht & H1 & H2 & H3 & H4). cbv zeta.
  assert (Htv : read (write (write (mem w) (grab_offset (drag w)) (vec 0 0))
                        (throw_vel (drag w)) (vec 0 0)) (throw_vel (drag w)) = vec 0 0)
    by (apply read_write_same; rewrite write_length; assumption).
  cbn [handle_event]. change (Z.eqb 1 1) with true. cbv iota. unfold reset. cbv zeta.
  cbn [mem ball drag active grab_offset throw_vel].
  split; [reflexivity|].
  split.
  { rewrite read_write_other by assumption. apply read_write_same; assumption. }
  split; [exact Htv|].
  split.
  { unfold ball_position. cbn [mem ball].
    assert (Hpos : pos (if active (drag w)
                        then {| pos := pos (ball w); vel := throw_vel (drag w) |}
                        else ball w) = pos (ball w))
      by (destruct (active (drag w)); reflexivity).
    rewrite Hpos. rewrite !read_write_other by congruence. reflexivity. }
  split.
  { intros Ha. rewrite Ha. cbn [vel]. split; [reflexivity|].
    unfold ball_velocity. cbn [mem ball vel]. exact Htv. }
  split.
  { intros Ha Hvt. rewrite Ha. unfold ball_velocity. cbn [mem ball].
    rewrite !read_write_other by congruence. reflexivity. }
  split.
  { intros Ha Hvt. rewrite Ha. unfold ball_velocity. cbn [mem ball].
    rewrite Hvt. exact Htv. }
  intros button Hb. apply Z.eqb_neq in Hb. rewrite Hb. reflexivity.
Qed.

Lemma release_resets_drag_witness :
  ball_velocity (handle_event source initial_world (MOUSEBUTTONUP 1))
  = ball_velocity initial_world.
Proof.
  destruct (release_resets_drag source initial_world initial_world_ok)
    as (_ & _ & _ & _ & _ & H & _).
  apply H; [reflexivity|]. cbn. lia.
Defined.

(** ** Bookkeeping of a tick *)







(** ** The program's hexagon *)

(** X11: for the hexagon that [hexagon_vertices] builds around [HEX_CENTER]
    with a positive radius, the normal that collision resolution computes
    for edge [i] is [-(cos t, sin t)] with [t = angle + i * 60 + 30] degrees:
    it already points inwards and is never turned over; and the centre is at
    signed distance [radius * sqrt 3 / 2] from every edge. *)
Theorem hexagon_edge_normals (cfg : Config) (angle : R) (i : nat) :
  0 < HEX_RADIUS cfg ->
  (i < 6)%nat ->
  let vertices := hexagon_vertices (HEX_CENTER cfg) (HEX_RADIUS cfg) angle in
  let t := angle + INR i * (2 * PI / 6) + PI / 6 in
  exists a b,
    index vertices i = Ok a /\
    index vertices ((i + 1) mod 6) = Ok b /\
    edge_normal cfg a b = Ok (Some (vec (- cos t) (- sin t))) /\
    signed_distance cfg vertices i (HEX_CENTER cfg) = Some (HEX_RADIUS cfg * sqrt 3 / 2).
Proof.
  intros Hr Hi. cbv zeta.
  exists (hexagon_vertex (HEX_CENTER cfg) (HEX_RADIUS cfg) angle i),
         (hexagon_vertex (HEX_CENTER cfg) (HEX_RADIUS cfg) angle (S i)).
  split; [apply index_hexagon; assumption|].
  split.
  { rewrite index_hexagon by (apply Nat.mod_upper_bound; lia).
    rewrite hexagon_vertex_next by assumption. reflexivity. }
  split.
  { rewrite edge_normal_hexagon by assumption. unfold hex_normal. cbv zeta.
    replace (angle + INR i * tau / 6 + PI / 6) with (angle + INR i * (2 * PI / 6) + PI / 6)
      by (unfold tau; lra).
    reflexivity. }
  rewrite signed_distance_hexagon by assumption. f_equal.
  unfold coords. cbn [fst snd].
  assert (Hz : forall n, Vector2.dot (Vector2.sub (HEX_CENTER cfg) (HEX_CENTER cfg)) n = 0)
    by (intros n; unfold Vector2.dot, Vector2.sub; cbn [Vector2.x Vector2.y]; ring).
  rewrite !Hz. unfold inradius.
  destruct i as [|[|[|[|[|[|i]]]]]]; cbn [edge_coord]; lra.
Qed.

Lemma hexagon_edge_normals_witness :
  signed_distance source (hexagon_vertices (HEX_CENTER source) (HEX_RADIUS source) 0) 0
    (HEX_CENTER source)
  = Some (HEX_RADIUS source * sqrt 3 / 2).
Proof.
  destruct (hexagon_edge_normals source 0 0 source_radius ltac:(lia))
    as (a & b & _ & _ & _ & H).
  exact H.
Defined.

(** X12: a ball whose centre is no farther from [HEX_CENTER] than the
    inradius less the ball radius is left alone by the collision step of a
    tick, at every angle of the hexagon: the store, and with it position and
    velocity, is unchanged. *)
Theorem inside_ball_untouched (cfg : Config) (dt : R) (w : World) :
  0 < HEX_RADIUS cfg ->
  Vector2.length (Vector2.sub (ball_position w) (HEX_CENTER cfg))
  <= HEX_RADIUS cfg * sqrt 3 / 2 - BALL_RADIUS cfg ->
  exists w',
    turn_and_collide cfg dt w = Ok w' /\
    mem w' = mem w /\ ball w' = ball w /\ drag w' = drag w.
Proof.
  intros Hr Hlen. rewrite turn_and_collide_clear by assumption.
  eexists. split; [reflexivity|]. cbn [mem ball drag]. repeat split.
Qed.

Lemma inside_ball_untouched_witness :
  exists w', turn_and_collide source (1 / 60) initial_world = Ok w' /\
             mem w' = mem initial_world.
Proof.
  destruct (inside_ball_untouched source (1 / 60) initial_world source_radius)
    as (w' & H1 & H2 & _).
  - apply near_center. eval_world. nra.
  - exists w'. split; assumption.
Defined.

(** X13: with the constants of the program, a ball that enters the
    collision step anywhere in the window, or up to 22 pixels outside it
    (a held ball is at most [BALL_RADIUS + 4] from the mouse), ends the tick
    at least [BALL_RADIUS] inside every edge. *)
Theorem window_containment (dt : R) (w : World) :
  ball_ok (ball w) (mem w) ->
  -22 <= Vector2.x (ball_position w) <= IZR WIDTH + 22 ->
  -22 <= Vector2.y (ball_position w) <= IZR HEIGHT + 22 ->
  exists w',
    turn_and_collide source dt w = Ok w' /\
    forall i, (i < 6)%nat ->
      exists d,
        signed_distance source
          (hexagon_vertices (HEX_CENTER source) (HEX_RADIUS source) (angle w')) i
          (ball_position w') = Some d /\
        BALL_RADIUS source <= d.
Proof.
  intros Hok Hx Hy. unfold WIDTH, HEIGHT in *.
  destruct (turn_and_collide_contained source dt w source_radius Hok)
    as (w' & Hturn & _ & _ & _ & _ & _ & Hd).
  { apply Rle_trans with 756; [|pose proof source_slack; lra].
    apply far_from_center; [lra|]. nra. }
  exists w'. split; assumption.
Qed.

Lemma window_containment_witness :
  exists w', turn_and_collide source (1 / 60) initial_world = Ok w'.
Proof.
  destruct (window_containment (1 / 60) initial_world) as (w' & H & _).
  - unfold ball_ok. cbn. lia.
  - eval_world. lra.
  - eval_world. lra.
  - exists w'. exact H.
Defined.

(** ** A pass in which one edge responds, and one in which two do *)

Lemma resolve_edge_clear (cfg : Config) (b : Ball) (vertices : list V2) (j : nat) (h : heap) :
  (6 <= length vertices)%nat -> (j < 6)%nat ->
  clear_of cfg vertices j (read h (pos b)) ->
  resolve_edge cfg b vertices j h = Ok h.
Proof.
  intros Hlen Hj Hclear. unfold clear_of, signed_distance in Hclear.
  unfold resolve_edge. unfold index in *.
  destruct (nth_error vertices j) as [a|] eqn:Ea.
  2:{ apply nth_error_None in Ea. lia. }
  destruct (nth_error vertices ((j + 1) mod 6)) as [c|] eqn:Ec.
  2:{ apply nth_error_None in Ec.
      pose proof (Nat.mod_upper_bound (j + 1) 6 ltac:(lia)). lia. }
  cbn [bind]. destruct (edge_normal_total cfg a c) as [o Ho]. rewrite Ho in *.
  cbn [bind]. destruct o as [n|]; [|reflexivity].
  rewrite respond_clear; [reflexivity|]. apply Hclear. reflexivity.
Qed.

Lemma for_each_clear (cfg : Config) (b : Ball) (vertices : list V2) (range : list nat)
      (h : heap) :
  (6 <= length vertices)%nat ->
  (forall j, In j range -> (j < 6)%nat /\ clear_of cfg vertices j (read h (pos b))) ->
  for_each (resolve_edge cfg b vertices) range h = Ok h.
Proof.
  intros Hlen. induction range as [|j range IH]; intros Hall; cbn [for_each]; [reflexivity|].
  destruct (Hall j (or_introl eq_refl)) as [Hj Hc].
  rewrite resolve_edge_clear by assumption. cbn [bind].
  apply IH. intros k Hk. apply Hall. right; exact Hk.
Qed.

Lemma for_each_app (body : nat -> heap -> result heap) (l1 l2 : list nat) (h : heap) :
  for_each body (l1 ++ l2) h = (do h1 <- for_each body l1 h; for_each body l2 h1).
Proof.
  revert h. induction l1 as [|i l1 IH]; intros h; cbn [app for_each bind]; [reflexivity|].
  destruct (body i h) as [h1|e]; cbn [bind]; [apply IH | reflexivity].
Qed.

Lemma seq_around (i : nat) :
  (i < 6)%nat -> seq 0 6 = seq 0 i ++ i :: seq (S i) (5 - i).
Proof.
  intros Hi. do 6 (destruct i as [|i]; [reflexivity|]). lia.
Qed.

(** When edge [i] alone responds, the pass is the response to edge [i]. *)
Lemma single_response (cfg : Config) (ball : Ball) (vertices : list V2) (angle dt : R)
      (i : nat) (h : heap) (a b n : V2) :
  ball_ok ball h ->
  (6 <= length vertices)%nat ->
  (i < 6)%nat ->
  index vertices i = Ok a ->
  index vertices ((i + 1) mod 6) = Ok b ->
  edge_normal cfg a b = Ok (Some n) ->
  (forall j, (j < i)%nat -> clear_of cfg vertices j (read h (pos ball))) ->
  (forall j, (i < j)%nat -> (j < 6)%nat ->
             clear_of cfg vertices j (read (respond cfg ball a n h) (pos ball))) ->
  resolve_collision cfg ball vertices angle dt h = Ok (respond cfg ball a n h).
Proof.
  intros Hok Hlen Hi Ha Hb Hn Hbefore Hafter.
  unfold resolve_collision. rewrite (seq_around i Hi), for_each_app.
  rewrite for_each_clear; [cbn [bind] | assumption |].
  2:{ intros j Hj. apply in_seq in Hj. split; [lia|]. apply Hbefore. lia. }
  cbn [for_each].
  rewrite (resolve_edge_some cfg ball vertices i h a b n Ha Hb Hn). cbn [bind].
  apply for_each_clear; [assumption|].
  intros j Hj. apply in_seq in Hj. split; [lia|]. apply Hafter; lia.
Qed.

(** C4, as the program has it: when the ball penetrates an edge and no
    other edge responds in that pass (the edges before it are clear of the
    ball where it was, those after it are clear of the ball where the
    correction puts it), then after [resolve_collision] the velocity is what
    the response to that edge makes it: with [vn] the component along the
    inward normal of the ball's velocity relative to the wall, the impulse
    [-(1 + RESTITUTION) * vn * normal] and the friction impulse are applied
    when [vn < 0], and the velocity is left alone when [vn >= 0].  With a
    wall at rest ([ANGULAR_SPEED = 0]), [RESTITUTION = 0.85] and [vn = -100]
    the normal component of the velocity after resolution is [85]. *)
Theorem C4_single_contact (cfg : Config) (ball : Ball) (vertices : list V2)
        (angle dt : R) (i : nat) (h : heap) (a b n : V2) :
  ball_ok ball h ->
  (6 <= length vertices)%nat ->
  (i < 6)%nat ->
  index vertices i = Ok a ->
  index vertices ((i + 1) mod 6) = Ok b ->
  edge_normal cfg a b = Ok (Some n) ->
  let p := read h (pos ball) in
  let v := read h (vel ball) in
  let penetration := BALL_RADIUS cfg - Vector2.dot (Vector2.sub p a) n in
  let p' := Vector2.add p (Vector2.scale n penetration) in
  let rel := Vector2.sub v (wall_velocity cfg p') in
  let vn := Vector2.dot rel n in
  let tangent := vec (- Vector2.y n) (Vector2.x n) in
  penetration > 0 ->
  (forall j, (j < i)%nat -> clear_of cfg vertices j p) ->
  (forall j, (i < j)%nat -> (j < 6)%nat -> clear_of cfg vertices j p') ->
  exists h',
    resolve_collision cfg ball vertices angle dt h = Ok h' /\
    read h' (pos ball) = p' /\
    (vn < 0 ->
     read h' (vel ball)
     = Vector2.add (Vector2.sub v (Vector2.scale n ((1 + RESTITUTION cfg) * vn)))
                   (Vector2.scale tangent (- Vector2.dot rel tangent * FRICTION cfg))) /\
    (0 <= vn -> read h' (vel ball) = v) /\
    (ANGULAR_SPEED cfg = 0 -> RESTITUTION cfg = 85 / 100 -> vn = -100 ->
     Vector2.dot v n = -100 /\ Vector2.dot (read h' (vel ball)) n = 85).
Proof.
  intros Hok Hlen Hi Ha Hb Hn p v penetration p' rel vn tangent Hpen Hbefore Hafter.
  assert (Hpos : read (respond cfg ball a n h) (pos ball) = p').
  { rewrite respond_pos by assumption. unfold push. cbv zeta. fold p. fold penetration.
    destruct (Rgt_dec penetration 0); [reflexivity | contradiction]. }
  exists (respond cfg ball a n h). split.
  { apply (single_response cfg ball vertices angle dt i h a b n); try assumption.
    rewrite Hpos. exact Hafter. }
  split; [exact Hpos|].
  destruct (resolve_edge_response cfg ball vertices i h a b n Hok Ha Hb Hn Hpen)
    as (h1 & Hh1 & Hneg & Hsep & Hscen).
  rewrite (resolve_edge_some cfg ball vertices i h a b n Ha Hb Hn) in Hh1.
  injection Hh1 as <-.
  repeat split; try assumption; apply Hscen; assumption.
Qed.

Lemma stationary_center : HEX_CENTER stationary = vec 450 350.
Proof. reflexivity. Qed.

Lemma stationary_radius : 0 < HEX_RADIUS stationary.
Proof. cbn. lra. Qed.

Lemma stationary_slack : slack stationary = 120 * sqrt 3 - 18.
Proof. unfold slack, inradius. cbn. lra. Qed.

Lemma still_normal_0 : hex_normal 0 0 = vec (- (sqrt 3 / 2)) (- (1 / 2)).
Proof.
  unfold hex_normal. cbv zeta.
  replace (0 + INR 0 * tau / 6 + PI / 6) with (PI / 6) by (cbn; lra).
  rewrite cos_PI6, sin_PI6. reflexivity.
Qed.

Lemma still_normal_1 : hex_normal 0 1 = vec 0 (-1).
Proof.
  rewrite hex_normal_succ, still_normal_0, rotate_PI3. cbn [Vector2.x Vector2.y].
  f_equal; field [sqrt3_sqr].
Qed.

Lemma still_normal_2 : hex_normal 0 2 = vec (sqrt 3 / 2) (- (1 / 2)).
Proof.
  rewrite hex_normal_2, still_normal_0, still_normal_1. unfold Vector2.sub.
  cbn [Vector2.x Vector2.y]. f_equal; lra.
Qed.

Lemma still_coords (x y : R) :
  coords stationary 0 (vec x y)
  = (- (sqrt 3 / 2) * (x - 450) - (y - 350) / 2, - (y - 350)).
Proof.
  unfold coords. rewrite still_normal_0, still_normal_1, stationary_center.
  unfold Vector2.dot, Vector2.sub. cbn [Vector2.x Vector2.y]. f_equal; lra.
Qed.

Lemma clear_of_hexagon (cfg : Config) (angle : R) (j : nat) (q : V2) :
  0 < HEX_RADIUS cfg -> (j < 6)%nat ->
  - slack cfg <= edge_coord j (fst (coords cfg angle q)) (snd (coords cfg angle q)) ->
  clear_of cfg (hexagon_vertices (HEX_CENTER cfg) (HEX_RADIUS cfg) angle) j q.
Proof.
  intros Hr Hj Hc d. rewrite signed_distance_hexagon by assumption.
  intros [= <-]. unfold slack in Hc. unfold coords in Hc. cbn [fst snd] in Hc. lra.
Qed.

Lemma still_edge (i : nat) :
  (i < 6)%nat ->
  index still_hexagon i
  = Ok (hexagon_vertex (HEX_CENTER stationary) (HEX_RADIUS stationary) 0 i) /\
  index still_hexagon ((i + 1) mod 6)
  = Ok (hexagon_vertex (HEX_CENTER stationary) (HEX_RADIUS stationary) 0 (S i)) /\
  edge_normal stationary
    (hexagon_vertex (HEX_CENTER stationary) (HEX_RADIUS stationary) 0 i)
    (hexagon_vertex (HEX_CENTER stationary) (HEX_RADIUS stationary) 0 (S i))
  = Ok (Some (hex_normal 0 i)).
Proof.
  intros Hi. unfold still_hexagon. split; [apply index_hexagon; assumption|]. split.
  - rewrite index_hexagon by (apply Nat.mod_upper_bound; lia).
    rewrite hexagon_vertex_next by assumption. reflexivity.
  - apply edge_normal_hexagon, stationary_radius.
Qed.

(** The ball at the middle of edge 1: where the correction puts it. *)
Lemma edge_store_corrected :
  Vector2.add (vec 450 545)
    (Vector2.scale (hex_normal 0 1)
       (BALL_RADIUS stationary
        - Vector2.dot
            (Vector2.sub (vec 450 545)
               (hexagon_vertex (HEX_CENTER stationary) (HEX_RADIUS stationary) 0 1))
            (hex_normal 0 1)))
  = vec 450 (332 + 120 * sqrt 3).
Proof.
  rewrite distance_from_center, still_normal_1, stationary_center.
  unfold Vector2.add, Vector2.scale, Vector2.dot, Vector2.sub. cbn. f_equal; lra.
Qed.

Lemma C4_single_contact_witness :
  exists h',
    resolve_collision stationary lone_ball still_hexagon 0 0 edge_store = Ok h' /\
    Vector2.dot (read h' (vel lone_ball)) (hex_normal 0 1) = 85.
Proof.
  destruct (still_edge 1 ltac:(lia)) as (Ha & Hb & Hn).
  pose proof sqrt3_bounds as Hk.
  destruct (C4_single_contact stationary lone_ball still_hexagon 0 0 1 edge_store
              _ _ _ ltac:(unfold ball_ok; cbn; lia) ltac:(cbn; lia) ltac:(lia) Ha Hb Hn)
    as (h' & Hres & _ & _ & _ & Hscen).
  - cbn [read nth edge_store lone_ball pos].
    rewrite distance_from_center, still_normal_1, stationary_center.
    unfold Vector2.dot, Vector2.sub. cbn. lra.
  - intros j Hj. assert (j = 0%nat) as -> by lia.
    apply clear_of_hexagon; [apply stationary_radius | lia |].
    cbn [read nth edge_store lone_ball pos].
    rewrite still_coords, stationary_slack. cbn [fst snd edge_coord]. lra.
  - intros j Hj1 Hj6.
    cbn [read nth edge_store lone_ball pos]. rewrite edge_store_corrected.
    apply clear_of_hexagon; [apply stationary_radius | assumption |].
    rewrite still_coords, stationary_slack. cbn [fst snd].
    destruct j as [|[|[|[|[|[|j]]]]]]; try lia; cbn [edge_coord]; lra.
  - exists h'. split; [exact Hres|].
    apply Hscen; try reflexivity.
    cbn [read nth edge_store lone_ball pos vel].
    rewrite still_normal_1.
    unfold wall_velocity, Vector2.dot, Vector2.sub, Vector2.add, Vector2.scale. cbn. lra.
Defined.

(** The response on the store and the response on values agree. *)
Lemma respond_reads (cfg : Config) (b : Ball) (a n : V2) (h : heap) :
  ball_ok b h ->
  (read (respond cfg b a n h) (pos b), read (respond cfg b a n h) (vel b))
  = respond_values cfg a n (read h (pos b), read h (vel b)).
Proof.
  intros (Hp & Hv & Hne). unfold respond, respond_values. cbn [fst snd]. cbv zeta.
  destruct (Rgt_dec _ 0); [|reflexivity].
  rewrite (read_write_same h (pos b)) by assumption.
  rewrite (read_write_other h (pos b) (vel b)) by assumption.
  destruct (Rlt_dec _ 0).
  - rewrite !read_write_other by congruence.
    rewrite (read_write_same h (pos b)) by assumption.
    rewrite read_write_same by (rewrite !write_length; assumption).
    rewrite read_write_same by (rewrite write_length; assumption).
    reflexivity.
  - rewrite (read_write_same h (pos b)) by assumption.
    rewrite (read_write_other h (pos b) (vel b)) by assumption.
    reflexivity.
Qed.

Lemma fold_respond_reads (cfg : Config) (angle : R) (b : Ball) (l : list nat) (h : heap) :
  ball_ok b h ->
  (read (fold_left (respond_edge cfg angle b) l h) (pos b),
   read (fold_left (respond_edge cfg angle b) l h) (vel b))
  = fold_left
      (fun pv i =>
         respond_values cfg (hexagon_vertex (HEX_CENTER cfg) (HEX_RADIUS cfg) angle i)
           (hex_normal angle i) pv)
      l (read h (pos b), read h (vel b)).
Proof.
  revert h. induction l as [|i l IH]; intros h Hok; cbn [fold_left]; [reflexivity|].
  rewrite IH by (apply respond_ball_ok; assumption).
  unfold respond_edge at 1 2. rewrite respond_reads by assumption. reflexivity.
Qed.

Lemma respond_values_clear (cfg : Config) (angle : R) (i : nat) (p v : V2) :
  (i < 6)%nat ->
  - slack cfg <= edge_coord i (fst (coords cfg angle p)) (snd (coords cfg angle p)) ->
  respond_values cfg (hexagon_vertex (HEX_CENTER cfg) (HEX_RADIUS cfg) angle i)
    (hex_normal angle i) (p, v) = (p, v).
Proof.
  intros Hi Hc. unfold respond_values. cbn [fst snd]. cbv zeta.
  rewrite distance_from_center, (dot_hex_normal _ angle i Hi).
  unfold coords, slack, inradius in Hc. cbn [fst snd] in Hc.
  destruct (Rgt_dec _ 0) as [Hgt|_]; [lra | reflexivity].
Qed.

(** The response of edge 1 to the ball in the corner. *)
Lemma corner_step_1 :
  respond_values stationary
    (hexagon_vertex (HEX_CENTER stationary) (HEX_RADIUS stationary) 0 1) (hex_normal 0 1)
    (vec 334 545, vec (-200) 100)
  = (vec 334 (332 + 120 * sqrt 3), vec (-160) (-85)).
Proof.
  pose proof sqrt3_bounds as Hk.
  unfold respond_values. cbn [fst snd]. cbv zeta.
  rewrite distance_from_center, still_normal_1, stationary_center.
  unfold wall_velocity, Vector2.dot, Vector2.sub, Vector2.add, Vector2.scale.
  cbn [Vector2.x Vector2.y HEX_RADIUS BALL_RADIUS RESTITUTION FRICTION ANGULAR_SPEED
       stationary source].
  destruct (Rgt_dec _ 0) as [_|C]; [|exfalso; apply C; lra].
  destruct (Rlt_dec _ 0) as [_|C]; [|exfalso; apply C; lra].
  f_equal; f_equal; lra.
Qed.

(** The response of edge 2 to the ball that edge 1 has pushed and turned. *)
Lemma corner_step_2 :
  respond_values stationary
    (hexagon_vertex (HEX_CENTER stationary) (HEX_RADIUS stationary) 0 2) (hex_normal 0 2)
    (vec 334 (332 + 120 * sqrt 3), vec (-160) (-85))
  = (vec (331 + 9 / 2 * sqrt 3) (655 / 2 + 121 * sqrt 3),
     vec (70 - 561 / 16 * sqrt 3) (- (527 / 16) - 66 * sqrt 3)).
Proof.
  pose proof sqrt3_bounds as Hk.
  unfold respond_values. cbn [fst snd]. cbv zeta.
  rewrite distance_from_center, still_normal_2, stationary_center.
  unfold wall_velocity, Vector2.dot, Vector2.sub, Vector2.add, Vector2.scale.
  cbn [Vector2.x Vector2.y HEX_RADIUS BALL_RADIUS RESTITUTION FRICTION ANGULAR_SPEED
       stationary source].
  destruct (Rgt_dec _ 0) as [_|C]; [|exfalso; apply C; lra].
  destruct (Rlt_dec _ 0) as [_|C]; [|exfalso; apply C; lra].
  f_equal; f_equal; field [sqrt3_sqr].
Qed.

(** The pass on the ball in the corner: edges 1 and 2 respond. *)
Lemma corner_pass :
  fold_left
    (fun pv i =>
       respond_values stationary
         (hexagon_vertex (HEX_CENTER stationary) (HEX_RADIUS stationary) 0 i)
         (hex_normal 0 i) pv)
    (seq 0 6) (vec 334 545, vec (-200) 100)
  = (vec (331 + 9 / 2 * sqrt 3) (655 / 2 + 121 * sqrt 3),
     vec (70 - 561 / 16 * sqrt 3) (- (527 / 16) - 66 * sqrt 3)).
Proof.
  pose proof sqrt3_bounds as Hk. pose proof sqrt3_sqr as Hk2.
  cbn [seq fold_left].
  rewrite (respond_values_clear stationary 0 0).
  2: lia.
  2:{ rewrite still_coords, stationary_slack. cbn [fst snd edge_coord]. lra. }
  rewrite corner_step_1, corner_step_2.
  assert (Hc : coords stationary 0 (vec (331 + 9 / 2 * sqrt 3) (655 / 2 + 121 * sqrt 3))
               = (9 / 2 - sqrt 3, 45 / 2 - 121 * sqrt 3)).
  { rewrite still_coords. f_equal; field [sqrt3_sqr]. }
  rewrite !respond_values_clear;
    try lia; rewrite ?Hc, ?stationary_slack; cbn [fst snd edge_coord]; try lra.
  reflexivity.
Qed.

(** The claim C4 as it was stated fails: in the corner between edges 1 and 2
    of the hexagon at rest the ball penetrates edge 1 with [vn = -100], and
    after resolution the component of its velocity along the normal of edge 1
    is [527/16 + 66 * sqrt 3], about 147.25, because edge 2 responds too. *)
Lemma C4_counterexample :
  exists a b h',
    ANGULAR_SPEED stationary = 0 /\
    RESTITUTION stationary = 85 / 100 /\
    index still_hexagon 1 = Ok a /\
    index still_hexagon 2 = Ok b /\
    edge_normal stationary a b = Ok (Some (vec 0 (-1))) /\
    BALL_RADIUS stationary
    - Vector2.dot (Vector2.sub (read corner_store (pos lone_ball)) a) (vec 0 (-1)) > 0 /\
    Vector2.dot
      (Vector2.sub (read corner_store (vel lone_ball))
         (wall_velocity stationary
            (Vector2.add (read corner_store (pos lone_ball))
               (Vector2.scale (vec 0 (-1))
                  (BALL_RADIUS stationary
                   - Vector2.dot (Vector2.sub (read corner_store (pos lone_ball)) a)
                       (vec 0 (-1)))))))
      (vec 0 (-1)) = -100 /\
    resolve_collision stationary lone_ball still_hexagon 0 0 corner_store = Ok h' /\
    Vector2.dot (read h' (vel lone_ball)) (vec 0 (-1)) = 527 / 16 + 66 * sqrt 3 /\
    Vector2.dot (read h' (vel lone_ball)) (vec 0 (-1)) <> 85.
Proof.
  pose proof sqrt3_bounds as Hk.
  destruct (still_edge 1 ltac:(lia)) as (Ha & Hb & Hn).
  rewrite still_normal_1 in Hn.
  assert (Hok : ball_ok lone_ball corner_store) by (unfold ball_ok; cbn; lia).
  assert (Hvel : read (fold_left (respond_edge stationary 0 lone_ball) (seq 0 6)
                         corner_store) (vel lone_ball)
                 = vec (70 - 561 / 16 * sqrt 3) (- (527 / 16) - 66 * sqrt 3)).
  { pose proof (fold_respond_reads stationary 0 lone_ball (seq 0 6) corner_store Hok)
      as Hreads.
    change (read corner_store (pos lone_ball)) with (vec 334 545) in Hreads.
    change (read corner_store (vel lone_ball)) with (vec (-200) 100) in Hreads.
    rewrite corner_pass in Hreads. exact (f_equal snd Hreads). }
  eexists. eexists. eexists.
  split; [reflexivity|]. split; [reflexivity|].
  split; [exact Ha|]. split; [exact Hb|]. split; [exact Hn|].
  change (read corner_store (pos lone_ball)) with (vec 334 545).
  change (read corner_store (vel lone_ball)) with (vec (-200) 100).
  rewrite <- still_normal_1 at 1 2. rewrite distance_from_center, still_normal_1.
  rewrite stationary_center.
  split.
  { unfold Vector2.dot, Vector2.sub. cbn. lra. }
  split.
  { unfold wall_velocity, Vector2.dot, Vector2.sub, Vector2.add, Vector2.scale. cbn. lra. }
  split.
  { unfold still_hexagon. apply resolve_collision_hexagon, stationary_radius. }
  assert (Hdot : Vector2.dot
                   (read (fold_left (respond_edge stationary 0 lone_ball) (seq 0 6)
                            corner_store) (vel lone_ball)) (vec 0 (-1))
                 = 527 / 16 + 66 * sqrt 3).
  { rewrite Hvel. unfold Vector2.dot. cbn [Vector2.x Vector2.y]. lra. }
  split; [exact Hdot|]. rewrite Hdot. lra.
Qed.
